(** * revive.go: configuration normalisation and result translation

    A shallow embedding of [pkg/golinters/revive.go] (the golangci-lint
    wrapper around the revive linter) and the properties of its
    configuration pipeline ([createConfigMap], [safeTomlSlice],
    [normalizeConfig], [defaultConfig], [getReviveConfig]) and of its result
    pipeline ([runRevive], [reviveToIssue]).

    Conventions.
    - A Go [float64] is a primitive binary64 float; [==] and [<] are the
      IEEE comparisons [PrimFloat.eqb] and [PrimFloat.ltb].
    - A Go [int] is a [Z] (no arithmetic is done on them here).
    - A Go slice is an [option (list A)]: [None] is the nil slice, which
      [reflect.DeepEqual] tells apart from an empty one.
    - A Go [map[string]V] is an [option (gmap string V)], [None] being the
      nil map; [map[string]any] values inside an [any] are never nil here.
    - A Go [map[any]any] is an association list in iteration order.
    - A runtime panic is the [Panic] outcome of the [outcome] monad. *)

From Stdlib Require Import Floats ZArith.
From stdpp Require Import gmap strings list fin_maps.

Set Warnings "-register-all".

(** ** Go values *)

(** The dynamic values an [any] (interface value) holds in this file. *)
Inductive any : Type :=
| VNil
| VBool (b : bool)
| VInt (z : Z)
| VFloat (f : float)
| VString (s : string)
| VSlice (l : option (list any))
| VMapAny (m : list (any * any))
| VMapString (m : gmap string any).

Definition elems {A : Type} (s : option (list A)) : list A := default [] s.

Definition maplen {V : Type} (m : option (gmap string V)) : nat :=
  match m with
  | None => 0
  | Some g => size g
  end.

(** ** Panics *)

(** [Panic msg] is a runtime panic; [msg] names the type assertion that
    failed (Go's own text also names the dynamic type found). *)

Inductive outcome (A : Type) : Type :=
| Ret (a : A)
| Panic (msg : string).

Arguments Ret {A} a.
Arguments Panic {A} msg.

Definition bind {A B : Type} (o : outcome A) (k : A → outcome B) : outcome B :=
  match o with
  | Ret a => k a
  | Panic msg => Panic msg
  end.

Global Instance outcome_bind : MBind outcome := λ A B k o, bind o k.
Global Instance outcome_ret : MRet outcome := λ A a, Ret a.

(** [for _, x := range l { acc = step(acc, x) }] where [step] may panic. *)
Fixpoint foldM {A B : Type} (step : B → A → outcome B) (acc : B) (l : list A)
  : outcome B :=
  match l with
  | [] => Ret acc
  | x :: l' => acc' ← step acc x ; foldM step acc' l'
  end.

Definition error := string.

(** ** go/token and revive's lint package (external types) *)

Record Position := {
  Filename : string;
  Offset : Z;
  Line : Z;
  Column : Z
}.

Record FailurePosition := {
  Start : Position;
  End_ : Position
}.

(** [lint.Failure]; its [Node] field is not serialised and not read here. *)
Record Failure := {
  f_Failure : string;
  f_RuleName : string;
  f_Category : string;
  f_Position : FailurePosition;
  f_Confidence : float;
  f_ReplacementLine : string
}.

(** [jsonObject]: a failure with the severity the formatter gave it. *)
Record jsonObject := {
  o_Severity : string;
  o_Failure : Failure
}.

Record RuleConfig := {
  rc_Arguments : option (list any);
  rc_Severity : string;
  rc_Disabled : bool
}.

Record DirectiveConfig := {
  dc_Severity : string
}.

Record Config := {
  IgnoreGeneratedHeader : bool;
  Confidence : float;
  Severity : string;
  EnableAllRules : bool;
  Rules : option (gmap string RuleConfig);
  ErrorCode : Z;
  WarningCode : Z;
  Directives : option (gmap string DirectiveConfig)
}.

Definition SeverityWarning : string := "warning".

(** ** config.ReviveSettings *)

Record RuleSettings := {
  rs_Name : string;
  rs_Arguments : option (list any);
  rs_Severity : string;
  rs_Disabled : bool
}.

Record DirectiveSettings := {
  ds_Name : string;
  ds_Severity : string
}.

(** Modelled from the spec: the type declaration [config.ReviveSettings]
    (pkg/config, not among the sources). Section 3 of the specification
    lists its fields; [runRevive] and [createConfigMap] read exactly these. *)
Record ReviveSettings := {
  s_MaxOpenFiles : Z;
  s_IgnoreGeneratedHeader : bool;
  s_Confidence : float;
  s_Severity : string;
  s_EnableAllRules : bool;
  s_Rules : option (list RuleSettings);
  s_ErrorCode : Z;
  s_WarningCode : Z;
  s_Directives : option (list DirectiveSettings)
}.

(** [&config.ReviveSettings{}] *)
Definition zeroSettings : ReviveSettings := {|
  s_MaxOpenFiles := 0;
  s_IgnoreGeneratedHeader := false;
  s_Confidence := 0%float;
  s_Severity := "";
  s_EnableAllRules := false;
  s_Rules := None;
  s_ErrorCode := 0;
  s_WarningCode := 0;
  s_Directives := None
|}.

(** [reflect.DeepEqual(cfg, &config.ReviveSettings{})]: field by field, with
    [==] on the scalars (so [-0.0] equals [0.0]) and nil-ness on the slices. *)
Definition isZeroSettings (cfg : ReviveSettings) : bool :=
  Z.eqb (s_MaxOpenFiles cfg) 0
  && negb (s_IgnoreGeneratedHeader cfg)
  && PrimFloat.eqb (s_Confidence cfg) 0
  && String.eqb (s_Severity cfg) ""
  && negb (s_EnableAllRules cfg)
  && (if s_Rules cfg is Some _ then false else true)
  && Z.eqb (s_ErrorCode cfg) 0
  && Z.eqb (s_WarningCode cfg) 0
  && (if s_Directives cfg is Some _ then false else true).

(** ** result.Issue and goanalysis.Issue *)

Record Range := {
  From_ : Z;
  To : Z
}.

Record Issue := {
  i_Severity : string;
  i_Text : string;
  i_Pos : Position;
  i_LineRange : Range;
  i_FromLinter : string
}.

(** [goanalysis.Issue]: the issue together with the pass it came from. *)
Record goIssue (Pass : Type) := NewIssue {
  gi_Issue : Issue;
  gi_Pass : Pass
}.

Arguments NewIssue {Pass} _ _.
Arguments gi_Issue {Pass} _.
Arguments gi_Pass {Pass} _.

Definition reviveName : string := "revive".

(** ** The rule catalogues *)

(** The rule types of revive's [rule] package that the file lists. *)
Inductive Rule : Type :=
| VarDeclarationsRule | PackageCommentsRule | DotImportsRule | BlankImportsRule
| ExportedRule | VarNamingRule | IndentErrorFlowRule | RangeRule | ErrorfRule
| ErrorNamingRule | ErrorStringsRule | ReceiverNamingRule
| IncrementDecrementRule | ErrorReturnRule | UnexportedReturnRule
| TimeNamingRule | ContextKeysType | ContextAsArgumentRule | EmptyBlockRule
| SuperfluousElseRule | UnusedParamRule | UnreachableCodeRule
| RedefinesBuiltinIDRule
| ArgumentsLimitRule | CyclomaticRule | FileHeaderRule | ConfusingNamingRule
| GetReturnRule | ModifiesParamRule | ConfusingResultsRule | DeepExitRule
| AddConstantRule | FlagParamRule | UnnecessaryStmtRule | StructTagRule
| ModifiesValRecRule | ConstantLogicalExprRule | BoolLiteralRule
| ImportsBlacklistRule | FunctionResultsLimitRule | MaxPublicStructsRule
| RangeValInClosureRule | RangeValAddress | WaitGroupByValueRule | AtomicRule
| EmptyLinesRule | LineLengthLimitRule | CallToGCRule | DuplicatedImportsRule
| ImportShadowingRule | BareReturnRule | UnusedReceiverRule
| UnhandledErrorRule | CognitiveComplexityRule | StringOfIntRule
| StringFormatRule | EarlyReturnRule | UnconditionalRecursionRule
| IdenticalBranchesRule | DeferRule | UnexportedNamingRule | FunctionLength
| NestedStructs | UselessBreak | UncheckedTypeAssertionRule | TimeEqualRule
| BannedCharsRule | OptimizeOperandsOrderRule | UseAnyRule | DataRaceRule
| CommentSpacingsRule | IfReturnRule | RedundantImportAlias
| ImportAliasNamingRule | EnforceMapStyleRule
| EnforceRepeatedArgTypeStyleRule | EnforceSliceStyleRule.

Definition defaultRules : list Rule := [
  VarDeclarationsRule;
  PackageCommentsRule;
  DotImportsRule;
  BlankImportsRule;
  ExportedRule;
  VarNamingRule;
  IndentErrorFlowRule;
  RangeRule;
  ErrorfRule;
  ErrorNamingRule;
  ErrorStringsRule;
  ReceiverNamingRule;
  IncrementDecrementRule;
  ErrorReturnRule;
  UnexportedReturnRule;
  TimeNamingRule;
  ContextKeysType;
  ContextAsArgumentRule;
  EmptyBlockRule;
  SuperfluousElseRule;
  UnusedParamRule;
  UnreachableCodeRule;
  RedefinesBuiltinIDRule
].

Definition allRules : list Rule := [
  ArgumentsLimitRule;
  CyclomaticRule;
  FileHeaderRule;
  ConfusingNamingRule;
  GetReturnRule;
  ModifiesParamRule;
  ConfusingResultsRule;
  DeepExitRule;
  AddConstantRule;
  FlagParamRule;
  UnnecessaryStmtRule;
  StructTagRule;
  ModifiesValRecRule;
  ConstantLogicalExprRule;
  BoolLiteralRule;
  ImportsBlacklistRule;
  FunctionResultsLimitRule;
  MaxPublicStructsRule;
  RangeValInClosureRule;
  RangeValAddress;
  WaitGroupByValueRule;
  AtomicRule;
  EmptyLinesRule;
  LineLengthLimitRule;
  CallToGCRule;
  DuplicatedImportsRule;
  ImportShadowingRule;
  BareReturnRule;
  UnusedReceiverRule;
  UnhandledErrorRule;
  CognitiveComplexityRule;
  StringOfIntRule;
  StringFormatRule;
  EarlyReturnRule;
  UnconditionalRecursionRule;
  IdenticalBranchesRule;
  DeferRule;
  UnexportedNamingRule;
  FunctionLength;
  NestedStructs;
  UselessBreak;
  UncheckedTypeAssertionRule;
  TimeEqualRule;
  BannedCharsRule;
  OptimizeOperandsOrderRule;
  UseAnyRule;
  DataRaceRule;
  CommentSpacingsRule;
  IfReturnRule;
  RedundantImportAlias;
  ImportAliasNamingRule;
  EnforceMapStyleRule;
  EnforceRepeatedArgTypeStyleRule;
  EnforceSliceStyleRule
] ++ defaultRules.

(** The Go constant [0.8] converted to [float64]. *)
Definition defaultConfidence : float := 0x1.999999999999ap-1%float.

(** ** safeTomlSlice *)

(** The inner loop of [safeTomlSlice]:
    [for k, v := range m { item[k.(string)] = v }]. *)
Definition setStringKey (item : gmap string any) (kv : any * any)
  : outcome (gmap string any) :=
  match kv.1 with
  | VString k => Ret (<[k := kv.2]> item)
  | _ => Panic "interface conversion: interface {} is not string"
  end.

(** One round of the outer loop: [elt.(map[any]any)], the inner loop, and
    [typed = append(typed, item)]. *)
Definition appendTyped (typed : list any) (elt : any) : outcome (list any) :=
  match elt with
  | VMapAny m =>
      item ← foldM setStringKey ∅ m ;
      Ret (typed ++ [VMapString item])
  | _ => Panic "interface conversion: interface {} is not map[interface {}]interface {}"
  end.

Definition safeTomlSlice (r : option (list any)) : outcome (option (list any)) :=
  match elems r with
  | [] => Ret None
  | VMapAny _ :: _ =>
      typed ← foldM appendTyped [] (elems r) ;
      Ret (Some typed)
  | _ :: _ => Ret r
  end.

(** ** createConfigMap *)

Definition rawDirective (directive : DirectiveSettings) : gmap string any :=
  {[ "severity" := VString (ds_Severity directive) ]}.

Definition setRawRule (rawRules : gmap string (gmap string any)) (s : RuleSettings)
  : outcome (gmap string (gmap string any)) :=
  arguments ← safeTomlSlice (rs_Arguments s) ;
  Ret (<[rs_Name s :=
          <["severity" := VString (rs_Severity s)]>
          (<["arguments" := VSlice arguments]>
          (<["disabled" := VBool (rs_Disabled s)]> ∅))]> rawRules).

Definition createConfigMap (cfg : ReviveSettings) : outcome (gmap string any) :=
  let rawRoot : gmap string any :=
    <["ignoreGeneratedHeader" := VBool (s_IgnoreGeneratedHeader cfg)]>
    (<["confidence" := VFloat (s_Confidence cfg)]>
    (<["severity" := VString (s_Severity cfg)]>
    (<["errorCode" := VInt (s_ErrorCode cfg)]>
    (<["warningCode" := VInt (s_WarningCode cfg)]>
    (<["enableAllRules" := VBool (s_EnableAllRules cfg)]> ∅))))) in
  let rawDirectives : gmap string (gmap string any) :=
    foldl (λ acc directive, <[ds_Name directive := rawDirective directive]> acc)
          ∅ (elems (s_Directives cfg)) in
  let rawRoot :=
    if decide (0 < size rawDirectives)
    then <["directive" := VMapString (VMapString <$> rawDirectives)]> rawRoot
    else rawRoot in
  rawRules ← foldM setRawRule ∅ (elems (s_Rules cfg)) ;
  let rawRoot :=
    if decide (0 < size rawRules)
    then <["rule" := VMapString (VMapString <$> rawRules)]> rawRoot
    else rawRoot in
  Ret rawRoot.

(** ** Shapes of argument lists *)

Definition isMap (elt : any) : bool :=
  match elt with VMapAny _ => true | _ => false end.

Definition isString (v : any) : bool :=
  match v with VString _ => true | _ => false end.

(** A map-like entry with a key that is not a string. *)
Definition nonStringKey (elt : any) : bool :=
  match elt with
  | VMapAny m => existsb (λ kv, negb (isString kv.1)) m
  | _ => false
  end.

(** A Go map holds each key once. *)
Definition uniqueKeys (elt : any) : Prop :=
  ∀ m, elt = VMapAny m → NoDup m.*1.

(** [typed] is the map-like entry [elt] with its keys, all strings, coerced:
    a string-keyed map with the same bindings. *)
Definition coerced (elt typed : any) : Prop :=
  ∃ m item,
    elt = VMapAny m ∧ typed = VMapString item
    ∧ (∀ kv, kv ∈ m → isString kv.1 = true)
    ∧ (∀ k v, item !! k = Some v ↔ (VString k, v) ∈ m).

(** An entry that [safeTomlSlice] can coerce: map-like, with string keys. *)
Definition coercible (elt : any) : Prop :=
  isMap elt = true ∧ nonStringKey elt = false.

Global Instance coercible_dec elt : Decision (coercible elt).
Proof. unfold coercible. apply _. Defined.

(** The entry written for a rule override whose arguments became
    [arguments]. *)
Definition rawRule (s : RuleSettings) (arguments : option (list any))
  : gmap string any :=
  <["severity" := VString (rs_Severity s)]>
  (<["arguments" := VSlice arguments]>
  (<["disabled" := VBool (rs_Disabled s)]> ∅)).

(** The directive loop of [createConfigMap]. *)
Definition setRawDirective (acc : gmap string (gmap string any))
    (directive : DirectiveSettings) : gmap string (gmap string any) :=
  <[ds_Name directive := rawDirective directive]> acc.

Section Revive.

(** The [Name] method of revive's rules (external). *)
Variable Name : Rule → string.

(** *** defaultConfig and normalizeConfig *)

(** [lint.RuleConfig{}] *)
Definition emptyRuleConfig : RuleConfig :=
  {| rc_Arguments := None; rc_Severity := ""; rc_Disabled := false |}.

Definition defaultConfig : Config := {|
  IgnoreGeneratedHeader := false;
  Confidence := defaultConfidence;
  Severity := SeverityWarning;
  EnableAllRules := false;
  Rules := Some (foldl (λ rules r, <[Name r := emptyRuleConfig]> rules) ∅ defaultRules);
  ErrorCode := 0;
  WarningCode := 0;
  Directives := None
|}.

(** The body of the enable-all loop: skip a rule already configured. *)
Definition addRule (rules : gmap string RuleConfig) (r : Rule)
  : gmap string RuleConfig :=
  let ruleName := Name r in
  match rules !! ruleName with
  | Some _ => rules
  | None => <[ruleName := emptyRuleConfig]> rules
  end.

Definition ruleSeverity (severity : string) (v : RuleConfig) : RuleConfig :=
  if String.eqb (rc_Severity v) ""
  then {| rc_Arguments := rc_Arguments v; rc_Severity := severity;
          rc_Disabled := rc_Disabled v |}
  else v.

Definition directiveSeverity (severity : string) (v : DirectiveConfig)
  : DirectiveConfig :=
  if String.eqb (dc_Severity v) "" then {| dc_Severity := severity |} else v.

Definition normalizeConfig (cfg : Config) : Config :=
  let confidence :=
    if PrimFloat.eqb (Confidence cfg) 0 then defaultConfidence
    else Confidence cfg in
  let severity :=
    if String.eqb (Severity cfg) "" then SeverityWarning else Severity cfg in
  let rules : gmap string RuleConfig :=
    if decide (maplen (Rules cfg) = 0) then ∅ else default ∅ (Rules cfg) in
  let rules :=
    if EnableAllRules cfg then foldl addRule rules allRules else rules in
  let rules :=
    if String.eqb severity "" then rules
    else ruleSeverity severity <$> rules in
  let directives :=
    if String.eqb severity "" then Directives cfg
    else fmap (M := option) (fmap (directiveSeverity severity)) (Directives cfg) in
  {| IgnoreGeneratedHeader := IgnoreGeneratedHeader cfg;
     Confidence := confidence;
     Severity := severity;
     EnableAllRules := EnableAllRules cfg;
     Rules := Some rules;
     ErrorCode := ErrorCode cfg;
     WarningCode := WarningCode cfg;
     Directives := directives |}.

(** The rule map between the expansion and the severity propagation. *)
Definition expanded (cfg : Config) : gmap string RuleConfig :=
  if EnableAllRules cfg
  then foldl addRule (default ∅ (Rules cfg)) allRules
  else default ∅ (Rules cfg).

(** *** getReviveConfig *)

(** The TOML encoder and decoder (github.com/BurntSushi/toml, external). *)
Variable tomlEncode : gmap string any → error + string.
Variable tomlDecode : string → error + Config.

Definition getReviveConfig (cfg : ReviveSettings) : outcome (error + Config) :=
  if isZeroSettings cfg
  then Ret (inr (normalizeConfig defaultConfig))
  else
    rawRoot ← createConfigMap cfg ;
    match tomlEncode rawRoot with
    | inl err => Ret (inl ("failed to encode configuration: " +:+ err))
    | inr buf =>
        match tomlDecode buf with
        | inl err => Ret (inl ("failed to decode configuration: " +:+ err))
        | inr conf => Ret (inr (normalizeConfig conf))
        end
    end.

(** *** reviveToIssue *)

Variable Pass : Type.

Definition reviveToIssue (pass : Pass) (object : jsonObject) : goIssue Pass :=
  let failure := o_Failure object in
  let position := f_Position failure in
  let lineRangeTo :=
    if String.eqb (f_RuleName failure) (Name ExportedRule)
    then Line (Start position)
    else Line (End_ position) in
  NewIssue
    {| i_Severity := o_Severity object;
       i_Text := f_RuleName failure +:+ ": " +:+ f_Failure failure;
       i_Pos := {| Filename := Filename (Start position);
                   Line := Line (Start position);
                   Offset := Offset (Start position);
                   Column := Column (Start position) |};
       i_LineRange := {| From_ := Line (Start position); To := lineRangeTo |};
       i_FromLinter := reviveName |}
    pass.

(** *** runRevive *)

(** The collaborators of [runRevive]: [getFileNames] (another file of the
    package), revive's formatter lookup, rule resolution, engine and JSON
    formatter, and [json.Unmarshal]. The channel [revive.Lint] returns is
    the list of failures sent on it before it is closed. *)
Variable getFileNames : Pass → list string.
Variable Formatter : Type.
Variable GetFormatter : string → error + Formatter.
Variable GetLintingRules : Config → list Rule → error + list Rule.
Variable Lint : Z → list (list string) → list Rule → Config → error + list Failure.
Variable Format : Formatter → list Failure → Config → string * option error.
Variable jsonUnmarshal : string → error + list jsonObject.

(** The producer loop: the failures sent on [formatChan], in order. *)
Definition forwarded (conf : Config) (failures : list Failure) : list Failure :=
  List.filter (λ f, negb (PrimFloat.ltb (f_Confidence f) (Confidence conf)))
              failures.

(** The result is the Go pair [(issues, err)]; a nil slice of issues is
    the empty list. The formatter goroutine receives exactly the failures
    the producer loop sends before closing the channel, and the main
    goroutine reads [output] only after the formatter has signalled on
    [exitChan]; a [Format] error is logged and then overwritten by the
    result of [json.Unmarshal]. *)
Definition runRevive (pass : Pass) (settings : ReviveSettings)
  : outcome (list (goIssue Pass) * option error) :=
  let packages := [getFileNames pass] in
  conf ← getReviveConfig settings ;
  match conf with
  | inl err => Ret ([], Some err)
  | inr conf =>
      match GetFormatter "json" with
      | inl err => Ret ([], Some err)
      | inr formatter =>
          match GetLintingRules conf [] with
          | inl err => Ret ([], Some err)
          | inr lintingRules =>
              match Lint (s_MaxOpenFiles settings) packages lintingRules conf with
              | inl err => Ret ([], Some err)
              | inr failures =>
                  let output := (Format formatter (forwarded conf failures) conf).1 in
                  match jsonUnmarshal output with
                  | inl err => Ret ([], Some err)
                  | inr results => Ret (reviveToIssue pass <$> results, None)
                  end
              end
          end
      end
  end.

(** The ways a stage of [runRevive] fails, each with the stages before it
    having succeeded: encoding or decoding the configuration, looking up the
    formatter, resolving the rules, running the engine, and decoding the
    formatter's output. *)
Inductive stageError (pass : Pass) (settings : ReviveSettings) : error → Prop :=
| config_encoding rawRoot err :
    isZeroSettings settings = false →
    createConfigMap settings = Ret rawRoot →
    tomlEncode rawRoot = inl err →
    stageError pass settings ("failed to encode configuration: " +:+ err)
| config_decoding rawRoot buf err :
    isZeroSettings settings = false →
    createConfigMap settings = Ret rawRoot →
    tomlEncode rawRoot = inr buf →
    tomlDecode buf = inl err →
    stageError pass settings ("failed to decode configuration: " +:+ err)
| formatter_lookup conf err :
    getReviveConfig settings = Ret (inr conf) →
    GetFormatter "json" = inl err →
    stageError pass settings err
| rule_resolution conf formatter err :
    getReviveConfig settings = Ret (inr conf) →
    GetFormatter "json" = inr formatter →
    GetLintingRules conf [] = inl err →
    stageError pass settings err
| engine_execution conf formatter lintingRules err :
    getReviveConfig settings = Ret (inr conf) →
    GetFormatter "json" = inr formatter →
    GetLintingRules conf [] = inr lintingRules →
    Lint (s_MaxOpenFiles settings) [getFileNames pass] lintingRules conf = inl err →
    stageError pass settings err
| result_decoding conf formatter lintingRules failures err :
    getReviveConfig settings = Ret (inr conf) →
    GetFormatter "json" = inr formatter →
    GetLintingRules conf [] = inr lintingRules →
    Lint (s_MaxOpenFiles settings) [getFileNames pass] lintingRules conf = inr failures →
    jsonUnmarshal (Format formatter (forwarded conf failures) conf).1 = inl err →
    stageError pass settings err.

End Revive.

Arguments reviveToIssue Name {Pass} pass object.


(** ** NewRevive *)

Section Linter.

Variable Name : Rule → string.
Variable tomlEncode : gmap string any → error + string.
Variable tomlDecode : string → error + Config.
Variable Pass : Type.
Variable getFileNames : Pass → list string.
Variable Formatter : Type.
Variable GetFormatter : string → error + Formatter.
Variable GetLintingRules : Config → list Rule → error + list Rule.
Variable Lint : Z → list (list string) → list Rule → Config → error + list Failure.
Variable Format : Formatter → list Failure → Config → string * option error.
Variable jsonUnmarshal : string → error + list jsonObject.

(** The [Run] closure [NewRevive] installs, in state-passing style:
    [resIssues] is the slice the closures share, touched only between
    [mu.Lock()] and [mu.Unlock()]. The result is the new [resIssues] and the
    error [Run] returns (its other result is always nil). *)
Definition analyzerRun (settings : ReviveSettings)
    (resIssues : list (goIssue Pass)) (pass : Pass)
  : outcome (list (goIssue Pass) * option error) :=
  r ← runRevive Name tomlEncode tomlDecode Pass getFileNames Formatter
                GetFormatter GetLintingRules Lint Format jsonUnmarshal
                pass settings ;
  match r.2 with
  | Some err => Ret (resIssues, Some err)
  | None =>
      if decide (length r.1 = 0) then Ret (resIssues, None)
      else Ret (resIssues ++ r.1, None)
  end.

(** The host calls [Run] once per pass, possibly concurrently; [mu] puts the
    appends in some order. [runSchedule] runs the passes in that order and
    returns what the issues reporter then returns, [resIssues]. *)
Definition runSchedule (settings : ReviveSettings)
    (resIssues : list (goIssue Pass)) (schedule : list Pass)
  : outcome (list (goIssue Pass)) :=
  foldM (λ res pass, r ← analyzerRun settings res pass ; Ret r.1)
        resIssues schedule.

(** The issues a pass contributes: those [runRevive] returns for it. *)
Definition issues_of (settings : ReviveSettings) (pass : Pass)
  : list (goIssue Pass) :=
  match runRevive Name tomlEncode tomlDecode Pass getFileNames Formatter
                 GetFormatter GetLintingRules Lint Format jsonUnmarshal
                 pass settings with
  | Ret r => r.1
  | Panic _ => []
  end.

End Linter.

(** ** Concrete collaborators for the examples *)

(** The names revive gives the listed rules. The theorems below hold for
    every [Name]; this table instantiates them in the concrete examples. *)
Definition ruleName (r : Rule) : string :=
  match r with
  | VarDeclarationsRule => "var-declaration"
  | PackageCommentsRule => "package-comments"
  | DotImportsRule => "dot-imports"
  | BlankImportsRule => "blank-imports"
  | ExportedRule => "exported"
  | VarNamingRule => "var-naming"
  | IndentErrorFlowRule => "indent-error-flow"
  | RangeRule => "range"
  | ErrorfRule => "errorf"
  | ErrorNamingRule => "error-naming"
  | ErrorStringsRule => "error-strings"
  | ReceiverNamingRule => "receiver-naming"
  | IncrementDecrementRule => "increment-decrement"
  | ErrorReturnRule => "error-return"
  | UnexportedReturnRule => "unexported-return"
  | TimeNamingRule => "time-naming"
  | ContextKeysType => "context-keys-type"
  | ContextAsArgumentRule => "context-as-argument"
  | EmptyBlockRule => "empty-block"
  | SuperfluousElseRule => "superfluous-else"
  | UnusedParamRule => "unused-parameter"
  | UnreachableCodeRule => "unreachable-code"
  | RedefinesBuiltinIDRule => "redefines-builtin-id"
  | ArgumentsLimitRule => "argument-limit"
  | CyclomaticRule => "cyclomatic"
  | FileHeaderRule => "file-header"
  | ConfusingNamingRule => "confusing-naming"
  | GetReturnRule => "get-return"
  | ModifiesParamRule => "modifies-parameter"
  | ConfusingResultsRule => "confusing-results"
  | DeepExitRule => "deep-exit"
  | AddConstantRule => "add-constant"
  | FlagParamRule => "flag-parameter"
  | UnnecessaryStmtRule => "unnecessary-stmt"
  | StructTagRule => "struct-tag"
  | ModifiesValRecRule => "modifies-value-receiver"
  | ConstantLogicalExprRule => "constant-logical-expr"
  | BoolLiteralRule => "bool-literal-in-expr"
  | ImportsBlacklistRule => "imports-blacklist"
  | FunctionResultsLimitRule => "function-result-limit"
  | MaxPublicStructsRule => "max-public-structs"
  | RangeValInClosureRule => "range-val-in-closure"
  | RangeValAddress => "range-val-address"
  | WaitGroupByValueRule => "waitgroup-by-value"
  | AtomicRule => "atomic"
  | EmptyLinesRule => "empty-lines"
  | LineLengthLimitRule => "line-length-limit"
  | CallToGCRule => "call-to-gc"
  | DuplicatedImportsRule => "duplicated-imports"
  | ImportShadowingRule => "import-shadowing"
  | BareReturnRule => "bare-return"
  | UnusedReceiverRule => "unused-receiver"
  | UnhandledErrorRule => "unhandled-error"
  | CognitiveComplexityRule => "cognitive-complexity"
  | StringOfIntRule => "string-of-int"
  | StringFormatRule => "string-format"
  | EarlyReturnRule => "early-return"
  | UnconditionalRecursionRule => "unconditional-recursion"
  | IdenticalBranchesRule => "identical-branches"
  | DeferRule => "defer"
  | UnexportedNamingRule => "unexported-naming"
  | FunctionLength => "function-length"
  | NestedStructs => "nested-structs"
  | UselessBreak => "useless-break"
  | UncheckedTypeAssertionRule => "unchecked-type-assertion"
  | TimeEqualRule => "time-equal"
  | BannedCharsRule => "banned-characters"
  | OptimizeOperandsOrderRule => "optimize-operands-order"
  | UseAnyRule => "use-any"
  | DataRaceRule => "datarace"
  | CommentSpacingsRule => "comment-spacings"
  | IfReturnRule => "if-return"
  | RedundantImportAlias => "redundant-import-alias"
  | ImportAliasNamingRule => "import-alias-naming"
  | EnforceMapStyleRule => "enforce-map-style"
  | EnforceRepeatedArgTypeStyleRule => "enforce-repeated-arg-type-style"
  | EnforceSliceStyleRule => "enforce-slice-style"
  end.

(** The TOML codec is not reached when the settings are all-zero. *)
Definition stubEncode (_ : gmap string any) : error + string := inr "".
Definition stubDecode (_ : string) : error + Config := inl "toml: no input".

(** Enable-all-rules with the rule "exported" configured as an error. *)
Definition exEnableAll : Config := {|
  IgnoreGeneratedHeader := false;
  Confidence := 0%float;
  Severity := "";
  EnableAllRules := true;
  Rules := Some {[ "exported" :=
             {| rc_Arguments := None; rc_Severity := "error";
                rc_Disabled := false |} ]};
  ErrorCode := 0;
  WarningCode := 0;
  Directives := None
|}.

Definition exPosition (line : Z) : Position :=
  {| Filename := "a.go"; Offset := 0; Line := line; Column := 1 |}.

Definition exFailure (rule : string) (confidence : float) : Failure := {|
  f_Failure := "exported function F should have comment or be unexported";
  f_RuleName := rule;
  f_Category := "comments";
  f_Position := {| Start := exPosition 10; End_ := exPosition 14 |};
  f_Confidence := confidence;
  f_ReplacementLine := ""
|}.

(** One failure below the default confidence and one exactly at it. *)
Definition exLow : Failure := exFailure "exported" 0.5%float.
Definition exHigh : Failure := exFailure "exported" defaultConfidence.

(** An engine that reports [exLow] and [exHigh], and a formatter and
    decoder that hand back what was sent. *)
Definition exGetFormatter (name : string) : error + unit := inr ().
Definition exGetLintingRules (conf : Config) (extra : list Rule)
  : error + list Rule := inr defaultRules.
Definition exLint (maxOpenFiles : Z) (packages : list (list string))
    (rules : list Rule) (conf : Config) : error + list Failure :=
  inr [exLow; exHigh].
Definition exFormat (formatter : unit) (failures : list Failure) (conf : Config)
  : string * option error := ("[...]", None).
Definition exUnmarshal (output : string) : error + list jsonObject :=
  inr [ {| o_Severity := "warning"; o_Failure := exHigh |} ].

(** Argument lists for [safeTomlSlice]. *)
Definition exStringKeys : list any :=
  [ VMapAny [ (VString "allowRegex", VString "^_") ] ].
Definition exMapSecond : list any :=
  [ VString "x"; VMapAny [ (VString "k", VString "v") ] ].
Definition exIntKeySecond : list any :=
  [ VString "x"; VMapAny [ (VInt 1, VString "v") ] ].
Definition exIntKeyFirst : list any :=
  [ VMapAny [ (VInt 1, VString "v") ] ].

Definition exRule (arguments : list any) : RuleSettings := {|
  rs_Name := "unused-parameter";
  rs_Arguments := Some arguments;
  rs_Severity := "";
  rs_Disabled := false
|}.

Definition exSettings (arguments : list any) : ReviveSettings := {|
  s_MaxOpenFiles := 0;
  s_IgnoreGeneratedHeader := false;
  s_Confidence := 0%float;
  s_Severity := "";
  s_EnableAllRules := false;
  s_Rules := Some [ exRule arguments ];
  s_ErrorCode := 0;
  s_WarningCode := 0;
  s_Directives := None
|}.

(** An encoder that rejects every tree. *)
Definition failEncode (_ : gmap string any) : error + string :=
  inl "toml: cannot encode".

(** Settings with two directives of the same name. *)
Definition exDirectives : ReviveSettings := {|
  s_MaxOpenFiles := 0;
  s_IgnoreGeneratedHeader := false;
  s_Confidence := 0%float;
  s_Severity := "";
  s_EnableAllRules := false;
  s_Rules := None;
  s_ErrorCode := 0;
  s_WarningCode := 0;
  s_Directives :=
    Some [ {| ds_Name := "specify-disable-reason"; ds_Severity := "warning" |};
           {| ds_Name := "specify-disable-reason"; ds_Severity := "error" |} ]
|}.

(** A failure whose confidence is not a number. *)
Definition exNaN : Failure := exFailure "exported" nan.


(** * Properties *)

(** ** The rule catalogues and the enable-all loop *)

Section Catalogue.

Variable Name : Rule → string.

Lemma addRule_lookup_old rules r k v :
  rules !! k = Some v → addRule Name rules r !! k = Some v.
Proof.
  intros Hk. unfold addRule.
  destruct (rules !! Name r) eqn:Hr; [done|].
  rewrite lookup_insert_ne; [done|]. intros <-. congruence.
Qed.

Lemma foldl_addRule_lookup_old l : ∀ rules k v,
  rules !! k = Some v → foldl (addRule Name) rules l !! k = Some v.
Proof.
  induction l as [|r l IH]; intros rules k v Hk; simpl; [done|].
  by apply IH, addRule_lookup_old.
Qed.

Lemma addRule_present rules r : is_Some (addRule Name rules r !! Name r).
Proof.
  unfold addRule. destruct (rules !! Name r) eqn:Hr.
  - rewrite Hr. eauto.
  - rewrite lookup_insert_eq. eauto.
Qed.

Lemma foldl_addRule_present l : ∀ rules r,
  r ∈ l → is_Some (foldl (addRule Name) rules l !! Name r).
Proof.
  induction l as [|x l IH]; intros rules r Hr; simpl.
  - by apply elem_of_nil in Hr.
  - apply elem_of_cons in Hr as [->|Hr]; [|by apply IH].
    destruct (addRule_present rules x) as [v Hv].
    exists v. by apply foldl_addRule_lookup_old.
Qed.

(** An entry of the expanded map was there before, or is the empty
    configuration of a catalogue rule that was missing. *)
Lemma foldl_addRule_inv l : ∀ rules k v,
  foldl (addRule Name) rules l !! k = Some v →
  rules !! k = Some v
  ∨ (rules !! k = None ∧ v = emptyRuleConfig ∧ ∃ r, r ∈ l ∧ k = Name r).
Proof.
  induction l as [|x l IH]; intros rules k v Hk; simpl in Hk; [by left|].
  apply IH in Hk as [Hk|(Hk & -> & r & Hr & ->)].
  - unfold addRule in Hk. destruct (rules !! Name x) eqn:Hx; [by left|].
    destruct (decide (Name x = k)) as [<-|Hne].
    + rewrite lookup_insert_eq in Hk. injection Hk as <-.
      right. repeat split; [done|]. exists x. split; [left|done].
    + rewrite lookup_insert_ne in Hk by done. by left.
  - unfold addRule in Hk. destruct (rules !! Name x) eqn:Hx.
    + right. repeat split; [done|]. exists r. split; [by right|done].
    + destruct (decide (Name x = Name r)) as [He|Hne].
      * rewrite He, lookup_insert_eq in Hk. done.
      * rewrite lookup_insert_ne in Hk by done.
        right. repeat split; [done|]. exists r. split; [by right|done].
Qed.

(** The loop changes nothing when every catalogue rule is configured. *)
Lemma foldl_addRule_id l : ∀ rules,
  (∀ r, r ∈ l → is_Some (rules !! Name r)) →
  foldl (addRule Name) rules l = rules.
Proof.
  induction l as [|x l IH]; intros rules Hall; simpl; [done|].
  assert (addRule Name rules x = rules) as ->.
  { unfold addRule. destruct (Hall x) as [v ->]; [left|done]. }
  apply IH. intros r Hr. apply Hall. by right.
Qed.

Lemma defaultRules_allRules r : r ∈ defaultRules → r ∈ allRules.
Proof. intros Hr. unfold allRules. apply elem_of_app. by right. Qed.

(** The loop of [defaultConfig]. *)
Lemma foldl_insert_inv l : ∀ (rules : gmap string RuleConfig) k v,
  foldl (λ rules r, <[Name r := emptyRuleConfig]> rules) rules l !! k = Some v →
  (v = emptyRuleConfig ∧ ∃ r, r ∈ l ∧ k = Name r) ∨ rules !! k = Some v.
Proof.
  induction l as [|x l IH]; intros rules k v Hk; simpl in Hk; [by right|].
  apply IH in Hk as [(-> & r & Hr & ->)|Hk].
  - left. split; [done|]. exists r. split; [by right|done].
  - destruct (decide (Name x = k)) as [<-|Hne].
    + rewrite lookup_insert_eq in Hk. injection Hk as <-.
      left. split; [done|]. exists x. split; [left|done].
    + rewrite lookup_insert_ne in Hk by done. by right.
Qed.

Lemma foldl_insert_present l : ∀ (rules : gmap string RuleConfig) r,
  r ∈ l →
  is_Some (foldl (λ rules r, <[Name r := emptyRuleConfig]> rules) rules l
           !! Name r).
Proof.
  induction l as [|x l IH] using rev_ind; intros rules r Hr.
  - by apply elem_of_nil in Hr.
  - rewrite foldl_app. simpl.
    destruct (decide (Name x = Name r)) as [->|Hne].
    + rewrite lookup_insert_eq. eauto.
    + rewrite lookup_insert_ne by done. apply IH.
      apply elem_of_app in Hr as [Hr|Hr]; [done|].
      apply list_elem_of_singleton in Hr. congruence.
Qed.

End Catalogue.


(** ** normalizeConfig *)

Section Normalize.

Variable Name : Rule → string.

Lemma eqb_empty_false (s : string) : String.eqb s "" = false ↔ s ≠ "".
Proof. apply String.eqb_neq. Qed.

Lemma Config_ext (c1 c2 : Config) :
  IgnoreGeneratedHeader c1 = IgnoreGeneratedHeader c2 →
  Confidence c1 = Confidence c2 →
  Severity c1 = Severity c2 →
  EnableAllRules c1 = EnableAllRules c2 →
  Rules c1 = Rules c2 →
  ErrorCode c1 = ErrorCode c2 →
  WarningCode c1 = WarningCode c2 →
  Directives c1 = Directives c2 →
  c1 = c2.
Proof. destruct c1, c2; simpl; intros; by subst. Qed.

(** After the first two steps the global severity is never empty. *)
Lemma normalizeConfig_Severity cfg :
  Severity (normalizeConfig Name cfg) =
  if String.eqb (Severity cfg) "" then "warning" else Severity cfg.
Proof. done. Qed.

Lemma normalizeConfig_Severity_nonempty cfg :
  String.eqb (Severity (normalizeConfig Name cfg)) "" = false.
Proof.
  rewrite normalizeConfig_Severity.
  destruct (String.eqb (Severity cfg) "") eqn:He; done.
Qed.

Lemma normalizeConfig_Confidence cfg :
  Confidence (normalizeConfig Name cfg) =
  if PrimFloat.eqb (Confidence cfg) 0 then defaultConfidence else Confidence cfg.
Proof. done. Qed.

Lemma normalizeConfig_Confidence_nonzero cfg :
  PrimFloat.eqb (Confidence (normalizeConfig Name cfg)) 0 = false.
Proof.
  rewrite normalizeConfig_Confidence.
  destruct (PrimFloat.eqb (Confidence cfg) 0) eqn:He; done.
Qed.

(** Replacing an empty map by a fresh empty map does not change it. *)
Lemma reset_empty {V} (m : option (gmap string V)) :
  (if decide (maplen m = 0) then ∅ else default ∅ m) = default ∅ m.
Proof.
  case_decide as Hlen; [|done].
  destruct m as [g|]; simpl in *; [|done].
  symmetry. by apply map_size_empty_iff.
Qed.

Lemma normalizeConfig_Rules cfg :
  Rules (normalizeConfig Name cfg) =
  Some (ruleSeverity (Severity (normalizeConfig Name cfg)) <$> expanded Name cfg).
Proof.
  unfold normalizeConfig at 1. cbn [Rules].
  change (if String.eqb (Severity cfg) "" then SeverityWarning else Severity cfg)
    with (Severity (normalizeConfig Name cfg)).
  rewrite normalizeConfig_Severity_nonempty, reset_empty. done.
Qed.

Lemma normalizeConfig_Directives cfg :
  Directives (normalizeConfig Name cfg) =
  fmap (M := option)
       (fmap (directiveSeverity (Severity (normalizeConfig Name cfg))))
       (Directives cfg).
Proof.
  unfold normalizeConfig at 1. cbn [Directives].
  change (if String.eqb (Severity cfg) "" then SeverityWarning else Severity cfg)
    with (Severity (normalizeConfig Name cfg)).
  by rewrite normalizeConfig_Severity_nonempty.
Qed.

Lemma ruleSeverity_Severity severity v :
  rc_Severity (ruleSeverity severity v) =
  if String.eqb (rc_Severity v) "" then severity else rc_Severity v.
Proof. unfold ruleSeverity. by destruct (String.eqb (rc_Severity v) ""). Qed.

Lemma ruleSeverity_idem severity v :
  String.eqb severity "" = false →
  ruleSeverity severity (ruleSeverity severity v) = ruleSeverity severity v.
Proof.
  intros Hs. unfold ruleSeverity at 1.
  rewrite ruleSeverity_Severity.
  destruct (String.eqb (rc_Severity v) "") eqn:He; by rewrite ?Hs, ?He.
Qed.

Lemma directiveSeverity_idem severity v :
  String.eqb severity "" = false →
  directiveSeverity severity (directiveSeverity severity v) =
  directiveSeverity severity v.
Proof.
  intros Hs. unfold directiveSeverity.
  destruct (String.eqb (dc_Severity v) "") eqn:He; simpl; by rewrite ?Hs, ?He.
Qed.

Lemma expanded_all cfg r :
  EnableAllRules cfg = true → r ∈ allRules → is_Some (expanded Name cfg !! Name r).
Proof.
  intros He Hr. unfold expanded. rewrite He. by apply foldl_addRule_present.
Qed.

(** With enable-all-rules, every rule of the full catalogue is configured
    after normalisation. *)
Lemma normalizeConfig_all cfg r :
  EnableAllRules cfg = true → r ∈ allRules →
  ∃ rules, Rules (normalizeConfig Name cfg) = Some rules
           ∧ is_Some (rules !! Name r).
Proof.
  intros He Hr. eexists. split; [apply normalizeConfig_Rules|].
  rewrite lookup_fmap. apply fmap_is_Some. by apply expanded_all.
Qed.

(** [normalizeConfig] applied to its own result. *)
Lemma expanded_normalized cfg :
  expanded Name (normalizeConfig Name cfg) =
  ruleSeverity (Severity (normalizeConfig Name cfg)) <$> expanded Name cfg.
Proof.
  unfold expanded at 1. rewrite normalizeConfig_Rules.
  change (EnableAllRules (normalizeConfig Name cfg)) with (EnableAllRules cfg).
  cbn [default from_option id].
  destruct (EnableAllRules cfg) eqn:He; [|done].
  apply foldl_addRule_id. intros r Hr.
  rewrite lookup_fmap. apply fmap_is_Some. by apply expanded_all.
Qed.

(** C5. [normalizeConfig] is idempotent: normalising a normalised
    configuration returns it unchanged, for every configuration and every
    naming of the catalogue rules. *)
Theorem normalizeConfig_idempotent (cfg : Config) :
  normalizeConfig Name (normalizeConfig Name cfg) = normalizeConfig Name cfg.
Proof.
  set (c := normalizeConfig Name cfg).
  assert (Severity (normalizeConfig Name c) = Severity c) as Hsev.
  { rewrite normalizeConfig_Severity. subst c.
    by rewrite normalizeConfig_Severity_nonempty. }
  assert (Confidence (normalizeConfig Name c) = Confidence c) as Hconf.
  { rewrite normalizeConfig_Confidence. subst c.
    by rewrite normalizeConfig_Confidence_nonzero. }
  assert (Rules (normalizeConfig Name c) = Rules c) as Hrules.
  { rewrite normalizeConfig_Rules, Hsev. subst c.
    rewrite expanded_normalized, normalizeConfig_Rules. f_equal.
    rewrite <- map_fmap_compose. apply map_fmap_ext. intros k v _. simpl.
    apply ruleSeverity_idem, normalizeConfig_Severity_nonempty. }
  assert (Directives (normalizeConfig Name c) = Directives c) as Hdir.
  { rewrite normalizeConfig_Directives, Hsev. subst c.
    rewrite normalizeConfig_Directives.
    destruct (Directives cfg) as [d|]; simpl; [|done]. f_equal.
    rewrite <- map_fmap_compose. apply map_fmap_ext. intros k v _. simpl.
    apply directiveSeverity_idem, normalizeConfig_Severity_nonempty. }
  apply Config_ext; done.
Qed.

(** Without enable-all-rules the expansion step leaves the keys alone; with
    it, a catalogue rule keeps its entry or gets the empty one. *)
Lemma expanded_lookup_catalogue cfg r :
  EnableAllRules cfg = true → r ∈ allRules →
  expanded Name cfg !! Name r =
  Some (default emptyRuleConfig (default ∅ (Rules cfg) !! Name r)).
Proof.
  intros He Hr. destruct (expanded_all cfg r He Hr) as [v Hv].
  rewrite Hv. unfold expanded in Hv. rewrite He in Hv.
  apply foldl_addRule_inv in Hv as [->|(-> & -> & _)]; done.
Qed.

Lemma expanded_lookup_other cfg k v :
  expanded Name cfg !! k = Some v →
  default ∅ (Rules cfg) !! k = Some v ∨ v = emptyRuleConfig.
Proof.
  unfold expanded. destruct (EnableAllRules cfg); [|by left].
  intros [?|(_ & -> & _)]%foldl_addRule_inv; [by left|by right].
Qed.

(** C2. With enable-all-rules set and exactly one rule configured, with a
    non-empty severity of its own, the normalised rule map has an entry for
    every rule of the full catalogue, the configured rule keeps its entry
    (and so its severity), and every other entry carries the global
    severity of the normalised configuration. *)
Theorem normalizeConfig_enable_all
    (cfg : Config) (name : string) (rc : RuleConfig) :
  EnableAllRules cfg = true →
  Rules cfg = Some {[ name := rc ]} →
  rc_Severity rc ≠ "" →
  ∃ rules : gmap string RuleConfig,
    Rules (normalizeConfig Name cfg) = Some rules
    ∧ (∀ r, r ∈ allRules → is_Some (rules !! Name r))
    ∧ rc_Severity <$> rules !! name = Some (rc_Severity rc)
    ∧ (∀ k v, k ≠ name → rules !! k = Some v →
         rc_Severity v = Severity (normalizeConfig Name cfg)).
Proof.
  intros He Hrules Hsev. eexists.
  split; [apply normalizeConfig_Rules|]. split; [|split].
  - intros r Hr. rewrite lookup_fmap. apply fmap_is_Some.
    by apply expanded_all.
  - rewrite lookup_fmap.
    assert (expanded Name cfg !! name = Some rc) as ->.
    { unfold expanded. rewrite He, Hrules.
      apply foldl_addRule_lookup_old. cbn [default from_option id].
      apply lookup_singleton_eq. }
    simpl. f_equal. rewrite ruleSeverity_Severity.
    apply eqb_empty_false in Hsev. by rewrite Hsev.
  - intros k v Hne. rewrite lookup_fmap.
    destruct (expanded Name cfg !! k) as [v0|] eqn:Hk; [|done].
    simpl. intros [= <-].
    apply expanded_lookup_other in Hk as [Hk| ->].
    + rewrite Hrules in Hk. cbn [default from_option id] in Hk.
      by rewrite lookup_singleton_ne in Hk.
    + done.
Qed.

(** After [normalizeConfig], when enable-all-rules is set the rule map has
    every key of the default rule catalogue; otherwise it has exactly the
    keys of the rule map it was given. *)
Theorem normalizeConfig_rule_keys (cfg : Config) :
  ∃ rules : gmap string RuleConfig,
    Rules (normalizeConfig Name cfg) = Some rules
    ∧ (EnableAllRules cfg = true →
         ∀ r, r ∈ defaultRules → is_Some (rules !! Name r))
    ∧ (EnableAllRules cfg = false →
         ∀ k, is_Some (rules !! k) ↔ is_Some (default ∅ (Rules cfg) !! k)).
Proof.
  eexists. split; [apply normalizeConfig_Rules|]. split.
  - intros He r Hr. rewrite lookup_fmap. apply fmap_is_Some.
    by apply expanded_all, defaultRules_allRules.
  - intros He k. rewrite lookup_fmap, fmap_is_Some.
    unfold expanded. by rewrite He.
Qed.

(** C10. Every rule of [defaultRules] is also in [allRules]; and when
    enable-all-rules is set, every rule of [allRules], the default rules
    and the extra ones alike, has an entry after normalisation: the entry it
    had, or the empty one the loop inserted, with the global severity
    filled in. *)
Theorem defaultRules_in_allRules :
  (∀ r, r ∈ defaultRules → r ∈ allRules)
  ∧ (∀ cfg r, EnableAllRules cfg = true → r ∈ allRules →
       ∃ rules : gmap string RuleConfig,
         Rules (normalizeConfig Name cfg) = Some rules
         ∧ rules !! Name r =
           Some (ruleSeverity (Severity (normalizeConfig Name cfg))
                   (default emptyRuleConfig
                      (default ∅ (Rules cfg) !! Name r)))).
Proof.
  split; [apply defaultRules_allRules|].
  intros cfg r He Hr. eexists. split; [apply normalizeConfig_Rules|].
  by rewrite lookup_fmap, expanded_lookup_catalogue.
Qed.

End Normalize.

(** ** getReviveConfig *)

Section GetConfig.

Variable Name : Rule → string.
Variable tomlEncode : gmap string any → error + string.
Variable tomlDecode : string → error + Config.

Lemma defaultConfig_normalized_Rules :
  Rules (normalizeConfig Name (defaultConfig Name)) =
  Some (ruleSeverity "warning"
          <$> foldl (λ rules r, <[Name r := emptyRuleConfig]> rules) ∅
                    defaultRules).
Proof. by rewrite normalizeConfig_Rules. Qed.

(** C1. For settings equal to the zero value, [getReviveConfig] returns a
    configuration with confidence 0.8 and severity "warning" whose rule map
    has exactly the names of [defaultRules] as keys, each entry with
    severity "warning". *)
Theorem getReviveConfig_zero_settings (cfg : ReviveSettings) :
  isZeroSettings cfg = true →
  ∃ (conf : Config) (rules : gmap string RuleConfig),
    getReviveConfig Name tomlEncode tomlDecode cfg = Ret (inr conf)
    ∧ Confidence conf = defaultConfidence
    ∧ Severity conf = "warning"
    ∧ Rules conf = Some rules
    ∧ (∀ k, is_Some (rules !! k) ↔ ∃ r, r ∈ defaultRules ∧ k = Name r)
    ∧ (∀ k v, rules !! k = Some v → rc_Severity v = "warning").
Proof.
  intros Hzero. unfold getReviveConfig. rewrite Hzero.
  eexists _, _. split; [done|]. split; [done|]. split; [done|].
  split; [apply defaultConfig_normalized_Rules|]. split.
  - intros k. rewrite lookup_fmap, fmap_is_Some. split.
    + intros [v [(_ & r & Hr & ->)|Hv]%foldl_insert_inv]; [eauto|done].
    + intros (r & Hr & ->). by apply foldl_insert_present.
  - intros k v. rewrite lookup_fmap.
    destruct (foldl _ _ _ !! k) as [v0|] eqn:Hk; [|done].
    simpl. intros [= <-].
    apply foldl_insert_inv in Hk as [(-> & _)|Hk]; done.
Qed.

End GetConfig.

(** ** Comparing confidences *)

Lemma SFcompare_antisym (a b : spec_float) :
  SFcompare b a = CompOpp <$> SFcompare a b.
Proof.
  destruct a as [[]|[]| |[] m1 e1], b as [[]|[]| |[] m2 e2]; try reflexivity;
    simpl; rewrite (Z.compare_antisym e1 e2);
    destruct (e1 ?= e2)%Z; simpl; try reflexivity;
    by rewrite (Pos.compare_cont_antisym m1 m2 Eq).
Qed.

(** A confidence at or above the threshold is not strictly below it. *)
Lemma leb_not_ltb (threshold confidence : float) :
  PrimFloat.leb threshold confidence = true →
  PrimFloat.ltb confidence threshold = false.
Proof.
  rewrite leb_spec, ltb_spec. unfold SFleb, SFltb.
  rewrite (SFcompare_antisym (Prim2SF threshold) (Prim2SF confidence)).
  by destruct (SFcompare (Prim2SF threshold) (Prim2SF confidence)) as [[]|].
Qed.

(** ** reviveToIssue and runRevive *)

Section Pipeline.

Variable Name : Rule → string.
Variable tomlEncode : gmap string any → error + string.
Variable tomlDecode : string → error + Config.
Variable Pass : Type.
Variable getFileNames : Pass → list string.
Variable Formatter : Type.
Variable GetFormatter : string → error + Formatter.
Variable GetLintingRules : Config → list Rule → error + list Rule.
Variable Lint : Z → list (list string) → list Rule → Config → error + list Failure.
Variable Format : Formatter → list Failure → Config → string * option error.
Variable jsonUnmarshal : string → error + list jsonObject.

Abbreviation getConfig := (getReviveConfig Name tomlEncode tomlDecode).
Abbreviation stage_error :=
  (stageError Name tomlEncode tomlDecode Pass getFileNames Formatter GetFormatter
              GetLintingRules Lint Format jsonUnmarshal).
Abbreviation run :=
  (runRevive Name tomlEncode tomlDecode Pass getFileNames Formatter GetFormatter
             GetLintingRules Lint Format jsonUnmarshal).

(** C4. The issue [reviveToIssue] builds has the line range
    [startLine, startLine] when the failure's rule name is the name of the
    exported rule and [startLine, endLine] for every other rule name; its
    text is the rule name, a colon and a space, and the failure message; and
    its position is the failure's start position. *)
Theorem reviveToIssue_range (pass : Pass) (object : jsonObject) :
  let failure := o_Failure object in
  let position := f_Position failure in
  let issue := gi_Issue (reviveToIssue Name pass object) in
  (f_RuleName failure = Name ExportedRule →
     i_LineRange issue =
     {| From_ := Line (Start position); To := Line (Start position) |})
  ∧ (f_RuleName failure ≠ Name ExportedRule →
     i_LineRange issue =
     {| From_ := Line (Start position); To := Line (End_ position) |})
  ∧ i_Text issue = f_RuleName failure +:+ ": " +:+ f_Failure failure
  ∧ i_Pos issue = Start position.
Proof.
  simpl. repeat split.
  - intros ->. by rewrite String.eqb_refl.
  - intros Hne. apply String.eqb_neq in Hne. by rewrite Hne.
  - by destruct (Start (f_Position (o_Failure object))).
Qed.

Lemma getReviveConfig_error settings err :
  getConfig settings = Ret (inl err) →
  isZeroSettings settings = false
  ∧ ∃ rawRoot, createConfigMap settings = Ret rawRoot
    ∧ ((∃ e, tomlEncode rawRoot = inl e
             ∧ err = "failed to encode configuration: " +:+ e)
       ∨ (∃ buf e, tomlEncode rawRoot = inr buf ∧ tomlDecode buf = inl e
             ∧ err = "failed to decode configuration: " +:+ e)).
Proof.
  unfold getReviveConfig.
  destruct (isZeroSettings settings); [intros [=]|].
  destruct (createConfigMap settings) as [rawRoot|msg]; [|intros [=]].
  intros H. split; [done|]. exists rawRoot. split; [done|].
  cbn in H. destruct (tomlEncode rawRoot) as [e|buf].
  - left. exists e. split; [done|]. congruence.
  - destruct (tomlDecode buf) as [e|conf] eqn:Hd; [|done].
    right. exists buf, e. repeat split; [done|]. congruence.
Qed.

Lemma runRevive_config_error pass settings err :
  getConfig settings = Ret (inl err) → run pass settings = Ret ([], Some err).
Proof. intros H. unfold runRevive. by rewrite H. Qed.

(** C8. [runRevive] returns an error exactly when one of its stages fails
    (configuration encoding or decoding, formatter lookup, rule resolution,
    engine execution, result decoding), the error is that stage's, and the
    issue list returned with it is nil. *)
Theorem runRevive_error_atomic
    (pass : Pass) (settings : ReviveSettings)
    (issues : list (goIssue Pass)) (err : error) :
  run pass settings = Ret (issues, Some err)
  ↔ issues = [] ∧ stage_error pass settings err.
Proof.
  split.
  - unfold runRevive.
    destruct (getConfig settings) as [[e|conf]|msg] eqn:Hconf; [| |done].
    { intros [= <- <-]. split; [done|].
      apply getReviveConfig_error in Hconf
        as (Hz & rawRoot & Hraw & [(e0 & He & ->)|(buf & e0 & Hb & He & ->)]).
      - by eapply config_encoding.
      - by eapply config_decoding. }
    cbn.
    destruct (GetFormatter "json") as [e|formatter] eqn:Hf.
    { intros [= <- <-]. split; [done|]. by eapply formatter_lookup. }
    destruct (GetLintingRules conf []) as [e|lintingRules] eqn:Hr.
    { intros [= <- <-]. split; [done|]. by eapply rule_resolution. }
    destruct (Lint _ _ _ _) as [e|failures] eqn:Hl.
    { intros [= <- <-]. split; [done|]. by eapply engine_execution. }
    destruct (jsonUnmarshal _) as [e|results] eqn:Hu; [|done].
    intros [= <- <-]. split; [done|]. by eapply result_decoding.
  - intros [-> Hstage].
    destruct Hstage as
      [rawRoot e Hz Hraw He | rawRoot buf e Hz Hraw Hb He | conf e Hc Hf
      | conf formatter e Hc Hf Hr | conf formatter lintingRules e Hc Hf Hr Hl
      | conf formatter lintingRules failures e Hc Hf Hr Hl Hu].
    + apply runRevive_config_error. unfold getReviveConfig.
      rewrite Hz, Hraw. cbn. by rewrite He.
    + apply runRevive_config_error. unfold getReviveConfig.
      rewrite Hz, Hraw. cbn. by rewrite Hb, He.
    + unfold runRevive. rewrite Hc. cbn. by rewrite Hf.
    + unfold runRevive. rewrite Hc. cbn. by rewrite Hf, Hr.
    + unfold runRevive. rewrite Hc. cbn. by rewrite Hf, Hr, Hl.
    + unfold runRevive. rewrite Hc. cbn. by rewrite Hf, Hr, Hl, Hu.
Qed.

Lemma elem_of_forwarded conf failures f :
  f ∈ forwarded conf failures
  ↔ f ∈ failures ∧ PrimFloat.ltb (f_Confidence f) (Confidence conf) = false.
Proof.
  unfold forwarded. rewrite !list_elem_of_In, filter_In, negb_true_iff. done.
Qed.

(** C3. In a run whose stages succeed and whose formatter output decodes to
    the failures it was sent, a failure with confidence strictly below the
    configured confidence is not sent to the formatter and no decoded result
    (hence no issue) comes from it, while a failure with confidence at or
    above it is sent, and the issue converted from it is in the output. *)
Theorem runRevive_confidence_filter
    (pass : Pass) (settings : ReviveSettings) (conf : Config)
    (formatter : Formatter) (lintingRules : list Rule)
    (failures : list Failure) (results : list jsonObject) :
  getConfig settings = Ret (inr conf) →
  GetFormatter "json" = inr formatter →
  GetLintingRules conf [] = inr lintingRules →
  Lint (s_MaxOpenFiles settings) [getFileNames pass] lintingRules conf
    = inr failures →
  jsonUnmarshal (Format formatter (forwarded conf failures) conf).1
    = inr results →
  o_Failure <$> results = forwarded conf failures →
  run pass settings = Ret (reviveToIssue Name pass <$> results, None)
  ∧ ∀ f, f ∈ failures →
      (PrimFloat.ltb (f_Confidence f) (Confidence conf) = true →
         (f ∉ forwarded conf failures)
         ∧ ∀ o, o ∈ results → o_Failure o ≠ f)
      ∧ (PrimFloat.leb (Confidence conf) (f_Confidence f) = true →
         f ∈ forwarded conf failures
         ∧ ∃ o, o ∈ results ∧ o_Failure o = f
                ∧ reviveToIssue Name pass o
                  ∈ reviveToIssue Name pass <$> results).
Proof.
  intros Hc Hf Hr Hl Hu Hround. split.
  - unfold runRevive. rewrite Hc. cbn. by rewrite Hf, Hr, Hl, Hu.
  - intros f Hin. split.
    + intros Hlow.
      assert (f ∉ forwarded conf failures) as Hnot.
      { rewrite elem_of_forwarded. intros [_ Hge]. congruence. }
      split; [done|]. intros o Ho <-. apply Hnot.
      rewrite <- Hround. by apply list_elem_of_fmap_2.
    + intros Hge. apply leb_not_ltb in Hge.
      assert (f ∈ forwarded conf failures) as Hfw
        by by apply elem_of_forwarded.
      split; [done|]. rewrite <- Hround in Hfw.
      apply list_elem_of_fmap in Hfw as (o & -> & Ho).
      exists o. repeat split; [done|]. by apply list_elem_of_fmap_2.
Qed.

End Pipeline.

(** ** safeTomlSlice and createConfigMap *)

Lemma setStringKey_Ret item kv item' :
  setStringKey item kv = Ret item' →
  ∃ k, kv.1 = VString k ∧ item' = <[k := kv.2]> item.
Proof.
  unfold setStringKey. destruct kv as [[] v]; simpl; try done.
  intros [= <-]. eauto.
Qed.

Lemma foldM_setStringKey_Ret m : ∀ item item',
  foldM setStringKey item m = Ret item' →
  NoDup m.*1 →
  (∀ kv, kv ∈ m → isString kv.1 = true)
  ∧ (∀ k v, item' !! k = Some v
       ↔ (VString k, v) ∈ m ∨ (item !! k = Some v ∧ VString k ∉ m.*1)).
Proof.
  induction m as [|kv m IH]; intros item item' Hfold Hnd.
  - injection Hfold as <-. split.
    + intros kv Hkv. by apply elem_of_nil in Hkv.
    + intros k v. split; [intros Hk; right; split; [done|]|].
      * apply not_elem_of_nil.
      * intros [Hk|[Hk _]]; [by apply elem_of_nil in Hk|done].
  - simpl in Hfold.
    destruct (setStringKey item kv) as [item1|] eqn:Hset; [|done].
    apply setStringKey_Ret in Hset as (s & Hs & ->).
    rewrite fmap_cons in Hnd. apply NoDup_cons in Hnd as [Hfresh Hnd].
    destruct (IH _ _ Hfold Hnd) as [IHs IHl]. split.
    + intros kv' [->|Hkv]%elem_of_cons; [by rewrite Hs|by apply IHs].
    + intros k v. rewrite IHl, fmap_cons, Hs. destruct kv as [k0 v0].
      simpl in *. subst k0. rewrite elem_of_cons, not_elem_of_cons.
      destruct (decide (s = k)) as [->|Hne].
      * rewrite lookup_insert_eq. split.
        -- intros [Hin|[[= <-] _]]; [by left; right|by left; left].
        -- intros [[[= <-]|Hin]|[_ [Hk _]]]; [|by left|done].
           right. done.
      * rewrite lookup_insert_ne by done. split.
        -- intros [Hin|[Hk Hnot]]; [by left; right|].
           right. repeat split; [done| |done]. congruence.
        -- intros [[[= <- <-]|Hin]|[Hk [_ Hnot]]]; [done|by left|by right].
Qed.

Lemma foldM_setStringKey_total m : ∀ item,
  (∀ kv, kv ∈ m → isString kv.1 = true) →
  ∃ item', foldM setStringKey item m = Ret item'.
Proof.
  induction m as [|[k v] m IH]; intros item Hstr; simpl; [eauto|].
  assert (isString k = true) as Hk by (apply (Hstr (k, v)); left).
  destruct k; try done. cbn. apply IH.
  intros kv Hkv. apply Hstr. by right.
Qed.

Lemma foldM_appendTyped_Ret l : ∀ acc res,
  foldM appendTyped acc l = Ret res →
  Forall uniqueKeys l →
  ∃ typed, res = acc ++ typed ∧ Forall2 coerced l typed.
Proof.
  induction l as [|elt l IH]; intros acc res Hfold Huniq.
  - injection Hfold as <-. exists []. by rewrite app_nil_r.
  - simpl in Hfold. apply Forall_cons in Huniq as [Hu Huniq].
    destruct elt as [| | | | | |m|]; try done. cbn in Hfold.
    destruct (foldM setStringKey ∅ m) as [item|] eqn:Hitem; [|done].
    cbn in Hfold. apply IH in Hfold as (typed & -> & Hall); [|done].
    exists (VMapString item :: typed). split; [by rewrite <- app_assoc|].
    constructor; [|done]. exists m, item.
    apply foldM_setStringKey_Ret in Hitem as [Hstr Hlook]; [|by apply Hu].
    repeat split; [done|..].
    + intros Hk. apply Hlook in Hk as [Hk|[Hk _]]; [done|].
      by rewrite lookup_empty in Hk.
    + intros Hk. apply Hlook. by left.
Qed.

Lemma foldM_appendTyped_total l : ∀ acc,
  Forall (λ elt, ∃ m, elt = VMapAny m
                      ∧ ∀ kv, kv ∈ m → isString kv.1 = true) l →
  ∃ res, foldM appendTyped acc l = Ret res.
Proof.
  induction l as [|elt l IH]; intros acc Hall; simpl; [eauto|].
  apply Forall_cons in Hall as [(m & -> & Hstr) Hall]. cbn.
  destruct (foldM_setStringKey_total m ∅ Hstr) as [item ->]. cbn.
  by apply IH.
Qed.

Lemma safeTomlSlice_nil r : elems r = [] → safeTomlSlice r = Ret None.
Proof. unfold safeTomlSlice. by intros ->. Qed.

Lemma safeTomlSlice_unchanged r elt r' :
  elems r = elt :: r' → isMap elt = false → safeTomlSlice r = Ret r.
Proof.
  unfold safeTomlSlice. intros Hr Helt. rewrite Hr.
  destruct r as [l|]; [|done]. by destruct elt.
Qed.

Lemma safeTomlSlice_map r elt r' :
  elems r = elt :: r' → isMap elt = true →
  safeTomlSlice r = (typed ← foldM appendTyped [] (elems r); Ret (Some typed)).
Proof.
  unfold safeTomlSlice. intros Hr Helt. rewrite Hr. by destruct elt.
Qed.

(** The entry [createConfigMap] writes for one rule override. *)
Lemma setRawRule_Ret rawRules s res :
  setRawRule rawRules s = Ret res →
  ∃ arguments,
    safeTomlSlice (rs_Arguments s) = Ret arguments
    ∧ res = <[rs_Name s :=
               <["severity" := VString (rs_Severity s)]>
               (<["arguments" := VSlice arguments]>
               (<["disabled" := VBool (rs_Disabled s)]> ∅))]> rawRules.
Proof.
  unfold setRawRule.
  destruct (safeTomlSlice (rs_Arguments s)) as [arguments|]; [|done].
  cbn. intros [= <-]. eauto.
Qed.

Lemma foldM_setRawRule_keep after : ∀ rawRules res name entry,
  foldM setRawRule rawRules after = Ret res →
  (∀ s, s ∈ after → rs_Name s ≠ name) →
  rawRules !! name = Some entry →
  res !! name = Some entry.
Proof.
  induction after as [|s after IH]; intros rawRules res name entry Hfold Hne Hl.
  - by injection Hfold as <-.
  - simpl in Hfold.
    destruct (setRawRule rawRules s) as [rawRules1|] eqn:Hset; [|done].
    cbn in Hfold. apply setRawRule_Ret in Hset as (arguments & _ & ->).
    eapply IH; [exact Hfold| |].
    + intros s' Hs'. apply Hne. by right.
    + rewrite lookup_insert_ne; [done|]. apply Hne. left.
Qed.

Lemma foldM_setRawRule_last before : ∀ rawRules s after res,
  foldM setRawRule rawRules (before ++ s :: after) = Ret res →
  (∀ s', s' ∈ after → rs_Name s' ≠ rs_Name s) →
  ∃ arguments entry,
    safeTomlSlice (rs_Arguments s) = Ret arguments
    ∧ res !! rs_Name s = Some entry
    ∧ entry !! "arguments" = Some (VSlice arguments).
Proof.
  induction before as [|s0 before IH]; intros rawRules s after res Hfold Hne;
    simpl in Hfold.
  - destruct (setRawRule rawRules s) as [rawRules1|] eqn:Hset; [|done].
    cbn in Hfold. apply setRawRule_Ret in Hset as (arguments & Hargs & ->).
    eexists arguments, _. split; [done|]. split.
    + eapply foldM_setRawRule_keep; [exact Hfold|done|].
      apply lookup_insert_eq.
    + done.
  - destruct (setRawRule rawRules s0) as [rawRules1|] eqn:Hset; [|done].
    cbn in Hfold. by eapply IH.
Qed.

(** C7 (as the code has it). In the raw tree [createConfigMap] returns, the
    entry of a rule override (the last one of its name) has an "arguments"
    value that is nil when the incoming argument list is empty, the incoming
    list itself when its first element is not map-like, and, when its first
    element is map-like, the list of all its elements, each one map-like
    with string keys, as string-keyed maps with the same bindings. *)
Theorem createConfigMap_arguments
    (cfg : ReviveSettings) (before after : list RuleSettings)
    (s : RuleSettings) (rawRoot : gmap string any) :
  elems (s_Rules cfg) = before ++ s :: after →
  (∀ s', s' ∈ after → rs_Name s' ≠ rs_Name s) →
  Forall uniqueKeys (elems (rs_Arguments s)) →
  createConfigMap cfg = Ret rawRoot →
  ∃ (rawRules entry : gmap string any) (arguments : option (list any)),
    rawRoot !! "rule" = Some (VMapString rawRules)
    ∧ rawRules !! rs_Name s = Some (VMapString entry)
    ∧ entry !! "arguments" = Some (VSlice arguments)
    ∧ (elems (rs_Arguments s) = [] → arguments = None)
    ∧ (∀ elt r', elems (rs_Arguments s) = elt :: r' → isMap elt = false →
         arguments = rs_Arguments s)
    ∧ (∀ elt r', elems (rs_Arguments s) = elt :: r' → isMap elt = true →
         ∃ typed, arguments = Some typed
                  ∧ Forall2 coerced (elems (rs_Arguments s)) typed).
Proof.
  intros Hrules Hlast Huniq. unfold createConfigMap. rewrite Hrules.
  destruct (foldM setRawRule ∅ (before ++ s :: after)) as [rawRules|] eqn:Hfold;
    [|done].
  cbn. intros [= <-].
  destruct (foldM_setRawRule_last _ _ _ _ _ Hfold Hlast)
    as (arguments & entry & Hargs & Hentry & Harg).
  exists (VMapString <$> rawRules), entry, arguments.
  assert (0 < size rawRules) as Hsize.
  { destruct (decide (size rawRules = 0)) as [He|]; [|lia].
    apply map_size_empty_iff in He. subst rawRules.
    by rewrite lookup_empty in Hentry. }
  rewrite decide_True by done.
  split; [apply lookup_insert_eq|].
  split; [by rewrite lookup_fmap, Hentry|].
  split; [done|]. split; [|split].
  - intros Hnil. rewrite safeTomlSlice_nil in Hargs by done. congruence.
  - intros elt r' Hr Hmap.
    rewrite (safeTomlSlice_unchanged _ _ _ Hr Hmap) in Hargs. congruence.
  - intros elt r' Hr Hmap.
    rewrite (safeTomlSlice_map _ _ _ Hr Hmap) in Hargs.
    destruct (foldM appendTyped [] (elems (rs_Arguments s))) as [typed|] eqn:Hty;
      [|done].
    cbn in Hargs. injection Hargs as <-.
    apply foldM_appendTyped_Ret in Hty as (typed' & -> & Hco); [|done].
    by exists typed'.
Qed.

(** * Concrete runs *)

Lemma getReviveConfig_zero_settings_witness :
  ∃ (conf : Config) (rules : gmap string RuleConfig),
    getReviveConfig ruleName stubEncode stubDecode zeroSettings = Ret (inr conf)
    ∧ Confidence conf = defaultConfidence
    ∧ Severity conf = "warning"
    ∧ Rules conf = Some rules
    ∧ (∀ k, is_Some (rules !! k) ↔ ∃ r, r ∈ defaultRules ∧ k = ruleName r)
    ∧ (∀ k v, rules !! k = Some v → rc_Severity v = "warning").
Proof.
  apply (getReviveConfig_zero_settings ruleName stubEncode stubDecode zeroSettings).
  reflexivity.
Defined.

Lemma normalizeConfig_enable_all_witness :
  ∃ rules : gmap string RuleConfig,
    Rules (normalizeConfig ruleName exEnableAll) = Some rules
    ∧ (∀ r, r ∈ allRules → is_Some (rules !! ruleName r))
    ∧ rc_Severity <$> rules !! "exported" = Some "error"
    ∧ (∀ k v, k ≠ "exported" → rules !! k = Some v →
         rc_Severity v = Severity (normalizeConfig ruleName exEnableAll)).
Proof.
  apply (normalizeConfig_enable_all ruleName exEnableAll "exported"
           {| rc_Arguments := None; rc_Severity := "error";
              rc_Disabled := false |}).
  - reflexivity.
  - reflexivity.
  - discriminate.
Defined.

Lemma runRevive_confidence_filter_witness :
  let conf := normalizeConfig ruleName (defaultConfig ruleName) in
  PrimFloat.ltb (f_Confidence exLow) (Confidence conf) = true
  ∧ (exLow ∉ forwarded conf [exLow; exHigh])
  ∧ PrimFloat.leb (Confidence conf) (f_Confidence exHigh) = true
  ∧ exHigh ∈ forwarded conf [exLow; exHigh].
Proof.
  intros conf.
  destruct (runRevive_confidence_filter ruleName stubEncode stubDecode unit
              (λ _, ["a.go"]) unit exGetFormatter exGetLintingRules exLint
              exFormat exUnmarshal () zeroSettings conf () defaultRules
              [exLow; exHigh]
              [ {| o_Severity := "warning"; o_Failure := exHigh |} ]
              eq_refl eq_refl eq_refl eq_refl eq_refl eq_refl) as [_ H].
  split; [reflexivity|]. split.
  - apply (H exLow); [left|reflexivity].
  - split; [reflexivity|]. apply (H exHigh); [right; left|reflexivity].
Defined.

Lemma createConfigMap_arguments_witness :
  ∃ rawRoot : gmap string any,
    createConfigMap (exSettings exStringKeys) = Ret rawRoot
    ∧ ∃ (rawRules entry : gmap string any) (arguments : option (list any)),
        rawRoot !! "rule" = Some (VMapString rawRules)
        ∧ rawRules !! "unused-parameter" = Some (VMapString entry)
        ∧ entry !! "arguments" = Some (VSlice arguments)
        ∧ ∃ typed, arguments = Some typed ∧ Forall2 coerced exStringKeys typed.
Proof.
  eexists. split; [reflexivity|].
  edestruct (createConfigMap_arguments (exSettings exStringKeys) [] []
               (exRule exStringKeys))
    as (rawRules & entry & arguments & H1 & H2 & H3 & _ & _ & H4).
  - reflexivity.
  - intros s' Hs'. by apply elem_of_nil in Hs'.
  - repeat constructor. intros m [= <-]. apply NoDup_singleton.
  - reflexivity.
  - exists rawRules, entry, arguments. repeat split; [done..|].
    by apply (H4 _ _ eq_refl).
Defined.

(** An entry with a key that is not a string, behind a first element that
    is not map-like: [safeTomlSlice] returns the list as it is and
    [createConfigMap] returns a raw tree. *)
Lemma safeTomlSlice_int_key_returned :
  existsb nonStringKey exIntKeySecond = true
  ∧ safeTomlSlice (Some exIntKeySecond) = Ret (Some exIntKeySecond)
  ∧ ∃ rawRoot, createConfigMap (exSettings exIntKeySecond) = Ret rawRoot.
Proof. split; [reflexivity|]. split; [reflexivity|]. eexists. reflexivity. Qed.

(** With such an entry first, the type assertion on the key panics. *)
Example safeTomlSlice_int_key_panics :
  safeTomlSlice (Some exIntKeyFirst)
  = Panic "interface conversion: interface {} is not string".
Proof. reflexivity. Qed.

(** A map-like element behind a first element that is not map-like keeps
    its arbitrary-key map: nothing is coerced. *)
Lemma safeTomlSlice_map_second_kept :
  existsb isMap exMapSecond = true
  ∧ ∃ out, safeTomlSlice (Some exMapSecond) = Ret (Some out)
           ∧ out !! 1%nat = Some (VMapAny [ (VString "k", VString "v") ]).
Proof. split; [reflexivity|]. eexists. split; reflexivity. Qed.


(** The range exception on the specification's example: start line 10 and
    end line 14. *)
Example reviveToIssue_exported_range :
  i_LineRange (gi_Issue (reviveToIssue ruleName ()
     {| o_Severity := "warning"; o_Failure := exFailure "exported" 1 |}))
    = {| From_ := 10; To := 10 |}
  ∧ i_LineRange (gi_Issue (reviveToIssue ruleName ()
     {| o_Severity := "warning"; o_Failure := exFailure "var-naming" 1 |}))
    = {| From_ := 10; To := 14 |}.
Proof. split; reflexivity. Qed.

(** * Further properties *)

(** ** normalizeConfig: what it guarantees and what it leaves alone *)

Section NormalizeMore.

Variable Name : Rule → string.

(** After [normalizeConfig] the confidence is not zero, the global severity
    is not empty, the rule map is not nil, and every rule entry and every
    directive entry has a severity. *)
Theorem normalizeConfig_invariant (cfg : Config) :
  PrimFloat.eqb (Confidence (normalizeConfig Name cfg)) 0 = false
  ∧ Severity (normalizeConfig Name cfg) ≠ ""
  ∧ (∃ rules : gmap string RuleConfig,
       Rules (normalizeConfig Name cfg) = Some rules
       ∧ ∀ k v, rules !! k = Some v → rc_Severity v ≠ "")
  ∧ (∀ (directives : gmap string DirectiveConfig) k v,
       Directives (normalizeConfig Name cfg) = Some directives →
       directives !! k = Some v → dc_Severity v ≠ "").
Proof.
  pose proof (normalizeConfig_Severity_nonempty Name cfg) as Hsev.
  split; [apply normalizeConfig_Confidence_nonzero|].
  split; [by apply eqb_empty_false|]. split.
  - eexists. split; [apply normalizeConfig_Rules|].
    intros k v. rewrite lookup_fmap.
    destruct (expanded Name cfg !! k) as [v0|]; [|done].
    simpl. intros [= <-]. rewrite ruleSeverity_Severity.
    destruct (String.eqb (rc_Severity v0) "") eqn:He;
      by apply eqb_empty_false.
  - intros directives k v. rewrite normalizeConfig_Directives.
    destruct (Directives cfg) as [ds|]; [|done].
    simpl. intros [= <-]. rewrite lookup_fmap.
    destruct (ds !! k) as [v0|]; [|done].
    simpl. intros [= <-]. unfold directiveSeverity.
    destruct (String.eqb (dc_Severity v0) "") eqn:He;
      by apply eqb_empty_false.
Qed.

(** Explicit configuration wins: a rule entry of the given map is still
    there after [normalizeConfig], with the same arguments and disabled
    flag; it is unchanged when it has a severity, and gets the global
    severity when it has none. *)
Theorem normalizeConfig_keeps_entries
    (cfg : Config) (given : gmap string RuleConfig)
    (k : string) (v : RuleConfig) :
  Rules cfg = Some given →
  given !! k = Some v →
  ∃ (rules : gmap string RuleConfig) (v' : RuleConfig),
    Rules (normalizeConfig Name cfg) = Some rules
    ∧ rules !! k = Some v'
    ∧ rc_Arguments v' = rc_Arguments v
    ∧ rc_Disabled v' = rc_Disabled v
    ∧ (rc_Severity v ≠ "" → v' = v)
    ∧ (rc_Severity v = "" →
         rc_Severity v' = Severity (normalizeConfig Name cfg)).
Proof.
  intros Hrules Hk. eexists _, _.
  split; [apply normalizeConfig_Rules|].
  assert (expanded Name cfg !! k = Some v) as Hexp.
  { unfold expanded. rewrite Hrules. cbn [default from_option id].
    destruct (EnableAllRules cfg); [|done].
    by apply foldl_addRule_lookup_old. }
  split; [by rewrite lookup_fmap, Hexp|].
  unfold ruleSeverity.
  destruct (String.eqb (rc_Severity v) "") eqn:He; simpl.
  - apply String.eqb_eq in He. by repeat split.
  - apply String.eqb_neq in He. by repeat split.
Qed.

(** The keys after [normalizeConfig] are the given keys, together with the
    names of the full catalogue when enable-all-rules is set, and nothing
    else; an entry that was not given is the empty rule configuration (no
    arguments, not disabled) with the global severity. *)
Theorem normalizeConfig_keys (cfg : Config) :
  ∃ rules : gmap string RuleConfig,
    Rules (normalizeConfig Name cfg) = Some rules
    ∧ (∀ k, is_Some (rules !! k)
            ↔ is_Some (default ∅ (Rules cfg) !! k)
              ∨ (EnableAllRules cfg = true ∧ ∃ r, r ∈ allRules ∧ k = Name r))
    ∧ (∀ k v, rules !! k = Some v → default ∅ (Rules cfg) !! k = None →
         v = {| rc_Arguments := None;
                rc_Severity := Severity (normalizeConfig Name cfg);
                rc_Disabled := false |}).
Proof.
  eexists. split; [apply normalizeConfig_Rules|]. split.
  - intros k. rewrite lookup_fmap, fmap_is_Some. unfold expanded.
    destruct (EnableAllRules cfg) eqn:He.
    + split.
      * intros [v [Hv|(_ & _ & r & Hr & ->)]%foldl_addRule_inv]; [by left; eauto|].
        right. eauto.
      * intros [[v Hv]|(_ & r & Hr & ->)].
        -- exists v. by apply foldl_addRule_lookup_old.
        -- by apply foldl_addRule_present.
    + split; [by left|]. by intros [?|[? _]].
  - intros k v. rewrite lookup_fmap.
    destruct (expanded Name cfg !! k) as [v0|] eqn:Hk; [|done].
    simpl. intros [= <-] Hnone.
    apply expanded_lookup_other in Hk as [Hk| ->]; [congruence|done].
Qed.

(** A nil directive map stays nil; otherwise the directive map keeps its
    keys, a directive with a severity is unchanged, and one without gets the
    global severity. *)
Theorem normalizeConfig_directives (cfg : Config) :
  match Directives cfg with
  | None => Directives (normalizeConfig Name cfg) = None
  | Some given =>
      ∃ directives : gmap string DirectiveConfig,
        Directives (normalizeConfig Name cfg) = Some directives
        ∧ (∀ k, is_Some (directives !! k) ↔ is_Some (given !! k))
        ∧ (∀ k v, given !! k = Some v → dc_Severity v ≠ "" →
             directives !! k = Some v)
        ∧ (∀ k v, given !! k = Some v → dc_Severity v = "" →
             directives !! k
             = Some {| dc_Severity := Severity (normalizeConfig Name cfg) |})
  end.
Proof.
  rewrite normalizeConfig_Directives.
  destruct (Directives cfg) as [given|]; [|done].
  eexists. split; [done|]. split; [|split].
  - intros k. by rewrite lookup_fmap, fmap_is_Some.
  - intros k v Hk Hsev. rewrite lookup_fmap, Hk. simpl.
    unfold directiveSeverity. apply String.eqb_neq in Hsev. by rewrite Hsev.
  - intros k v Hk Hsev. rewrite lookup_fmap, Hk. simpl.
    unfold directiveSeverity. apply String.eqb_eq in Hsev. by rewrite Hsev.
Qed.

(** A normalised configuration is a fixed point of [normalizeConfig]. *)
Lemma normalizeConfig_fixed cfg :
  normalizeConfig Name (normalizeConfig Name cfg) = normalizeConfig Name cfg.
Proof.
  pose proof (normalizeConfig_Severity_nonempty Name cfg) as Hne.
  apply Config_ext; try done.
  - rewrite normalizeConfig_Confidence.
    by rewrite normalizeConfig_Confidence_nonzero.
  - rewrite normalizeConfig_Severity. by rewrite Hne.
  - rewrite normalizeConfig_Rules, expanded_normalized.
    rewrite normalizeConfig_Severity, Hne, normalizeConfig_Rules. f_equal.
    rewrite <- map_fmap_compose. apply map_fmap_ext. intros k v _. simpl.
    by apply ruleSeverity_idem.
  - rewrite normalizeConfig_Directives.
    rewrite normalizeConfig_Severity, Hne, normalizeConfig_Directives.
    destruct (Directives cfg) as [d|]; simpl; [|done]. f_equal.
    rewrite <- map_fmap_compose. apply map_fmap_ext. intros k v _. simpl.
    by apply directiveSeverity_idem.
Qed.

End NormalizeMore.

(** ** getReviveConfig: what it returns *)

Section GetConfigMore.

Variable Name : Rule → string.
Variable tomlEncode : gmap string any → error + string.
Variable tomlDecode : string → error + Config.

Lemma getReviveConfig_Ret_inr cfg conf :
  getReviveConfig Name tomlEncode tomlDecode cfg = Ret (inr conf) →
  ∃ c, conf = normalizeConfig Name c.
Proof.
  unfold getReviveConfig. destruct (isZeroSettings cfg).
  - intros [= <-]. eauto.
  - destruct (createConfigMap cfg) as [rawRoot|]; [|done]. cbn.
    destruct (tomlEncode rawRoot) as [e|buf]; [done|].
    destruct (tomlDecode buf) as [e|c]; [done|].
    intros [= <-]. eauto.
Qed.

(** Every configuration [getReviveConfig] returns is normalised:
    normalising it again changes nothing, its confidence is not zero, its
    global severity is not empty and each of its rule entries has a
    severity. *)
Theorem getReviveConfig_normalized (cfg : ReviveSettings) (conf : Config) :
  getReviveConfig Name tomlEncode tomlDecode cfg = Ret (inr conf) →
  normalizeConfig Name conf = conf
  ∧ PrimFloat.eqb (Confidence conf) 0 = false
  ∧ Severity conf ≠ ""
  ∧ ∃ rules : gmap string RuleConfig,
      Rules conf = Some rules
      ∧ ∀ k v, rules !! k = Some v → rc_Severity v ≠ "".
Proof.
  intros [c ->]%getReviveConfig_Ret_inr.
  pose proof (normalizeConfig_Severity_nonempty Name c) as Hsev.
  split; [apply normalizeConfig_fixed|].
  split; [apply normalizeConfig_Confidence_nonzero|].
  split; [by apply eqb_empty_false|].
  eexists. split; [apply normalizeConfig_Rules|].
  intros k v. rewrite lookup_fmap.
  destruct (expanded Name c !! k) as [v0|]; [|done].
  simpl. intros [= <-]. rewrite ruleSeverity_Severity.
  destruct (String.eqb (rc_Severity v0) "") eqn:He; by apply eqb_empty_false.
Qed.

(** [getReviveConfig] returns an error exactly when the settings differ
    from the zero value, [createConfigMap] returns a raw tree, and the codec
    fails on it; the error is then the encoder's error behind the prefix
    "failed to encode configuration: ", or, the encoder having succeeded,
    the decoder's error behind "failed to decode configuration: ". *)
Theorem getReviveConfig_error_wrapped (cfg : ReviveSettings) (err : error) :
  getReviveConfig Name tomlEncode tomlDecode cfg = Ret (inl err)
  ↔ isZeroSettings cfg = false
    ∧ ∃ rawRoot,
        createConfigMap cfg = Ret rawRoot
        ∧ ((∃ e, tomlEncode rawRoot = inl e
                 ∧ err = "failed to encode configuration: " +:+ e)
           ∨ (∃ buf e, tomlEncode rawRoot = inr buf
                       ∧ tomlDecode buf = inl e
                       ∧ err = "failed to decode configuration: " +:+ e)).
Proof.
  split; [apply getReviveConfig_error|].
  intros (Hz & rawRoot & Hraw & [(e & He & ->)|(buf & e & Hb & He & ->)]);
    unfold getReviveConfig; rewrite Hz, Hraw; cbn.
  - by rewrite He.
  - by rewrite Hb, He.
Qed.

End GetConfigMore.

(** ** safeTomlSlice: when it panics and what it returns *)

Lemma coercible_string_keys elt :
  coercible elt →
  ∃ m, elt = VMapAny m ∧ ∀ kv, kv ∈ m → isString kv.1 = true.
Proof.
  intros [Hmap Hkeys]. destruct elt as [| | | | | |m|]; try done.
  exists m. split; [done|]. intros kv Hkv. simpl in Hkeys.
  destruct (isString kv.1) eqn:Hs; [done|].
  assert (existsb (λ kv, negb (isString kv.1)) m = true) as Hex; [|congruence].
  apply existsb_exists. exists kv. split; [by apply list_elem_of_In|].
  by rewrite Hs.
Qed.

Lemma foldM_setStringKey_strings m : ∀ item item',
  foldM setStringKey item m = Ret item' →
  ∀ kv, kv ∈ m → isString kv.1 = true.
Proof.
  induction m as [|kv0 m IH]; intros item item' Hfold kv Hkv.
  - by apply elem_of_nil in Hkv.
  - simpl in Hfold.
    destruct (setStringKey item kv0) as [item1|] eqn:Hset; [|done].
    apply setStringKey_Ret in Hset as (s & Hs & ->).
    apply elem_of_cons in Hkv as [->|Hkv]; [by rewrite Hs|].
    by eapply IH.
Qed.

Lemma foldM_appendTyped_coercible l : ∀ acc res,
  foldM appendTyped acc l = Ret res →
  Forall coercible l
  ∧ ∃ typed, res = acc ++ typed ∧ length typed = length l
             ∧ Forall (λ t, isMap t = false) typed.
Proof.
  induction l as [|elt l IH]; intros acc res Hfold.
  - injection Hfold as <-. split; [constructor|].
    exists []. by rewrite app_nil_r.
  - simpl in Hfold. destruct elt as [| | | | | |m|]; try done. cbn in Hfold.
    destruct (foldM setStringKey ∅ m) as [item|] eqn:Hitem; [|done].
    cbn in Hfold. apply IH in Hfold as (Hall & typed & -> & Hlen & Hty).
    split.
    + constructor; [|done]. split; [done|]. simpl.
      destruct (existsb _ m) eqn:Hex; [|done].
      apply existsb_exists in Hex as (kv & Hkv%list_elem_of_In & Hneg).
      by rewrite (foldM_setStringKey_strings _ _ _ Hitem kv Hkv) in Hneg.
    + exists (VMapString item :: typed). rewrite <- app_assoc. simpl.
      repeat split; [by rewrite Hlen|by constructor].
Qed.

Lemma foldM_appendTyped_Ret_iff l acc :
  (∃ res, foldM appendTyped acc l = Ret res) ↔ Forall coercible l.
Proof.
  split.
  - intros [res Hres]. by apply foldM_appendTyped_coercible in Hres as [? _].
  - intros Hall. apply foldM_appendTyped_total.
    eapply Forall_impl; [exact Hall|]. apply coercible_string_keys.
Qed.

(** [safeTomlSlice] panics exactly when the first element of the list is
    map-like and some element is not map-like or has a key that is not a
    string. *)
Theorem safeTomlSlice_panics_iff (r : option (list any)) :
  (∃ msg, safeTomlSlice r = Panic msg)
  ↔ ∃ elt r', elems r = elt :: r' ∧ isMap elt = true
              ∧ Exists (λ x, isMap x = false ∨ nonStringKey x = true) (elems r).
Proof.
  split.
  - intros [msg Hp]. destruct (elems r) as [|elt r'] eqn:Hr.
    { by rewrite safeTomlSlice_nil in Hp. }
    destruct (isMap elt) eqn:Hmap.
    2: { by rewrite (safeTomlSlice_unchanged _ _ _ Hr Hmap) in Hp. }
    exists elt, r'. repeat split; [done|].
    rewrite (safeTomlSlice_map _ _ _ Hr Hmap), Hr in Hp.
    destruct (decide (Forall coercible (elt :: r'))) as [Hall|Hnot].
    + apply (foldM_appendTyped_Ret_iff _ []) in Hall as [res Hres].
      by rewrite Hres in Hp.
    + apply not_Forall_Exists in Hnot; [|apply _].
      eapply Exists_impl; [exact Hnot|]. intros x Hx. simpl in Hx.
      unfold coercible in Hx.
      destruct (isMap x), (nonStringKey x); auto; by destruct Hx.
  - intros (elt & r' & Hr & Hmap & Hex).
    rewrite (safeTomlSlice_map _ _ _ Hr Hmap).
    destruct (foldM appendTyped [] (elems r)) as [res|msg] eqn:Hfold; [|eauto].
    apply foldM_appendTyped_coercible in Hfold as [Hall _].
    apply Exists_exists in Hex as (x & Hx & Hbad).
    rewrite Forall_forall in Hall. destruct (Hall x Hx) as [H1 H2].
    destruct Hbad; congruence.
Qed.

(** What [safeTomlSlice] returns it returns unchanged when applied again;
    the result has as many elements as the list, and is nil exactly when the
    list is empty. *)
Theorem safeTomlSlice_stable (r out : option (list any)) :
  safeTomlSlice r = Ret out →
  safeTomlSlice out = Ret out
  ∧ length (elems out) = length (elems r)
  ∧ (out = None ↔ elems r = []).
Proof.
  intros Hout. destruct (elems r) as [|elt r'] eqn:Hr.
  { rewrite safeTomlSlice_nil in Hout by done. by injection Hout as <-. }
  destruct (isMap elt) eqn:Hmap.
  - rewrite (safeTomlSlice_map _ _ _ Hr Hmap), Hr in Hout.
    destruct (foldM appendTyped [] (elt :: r')) as [res|] eqn:Hfold; [|done].
    cbn in Hout. injection Hout as <-.
    apply foldM_appendTyped_coercible in Hfold
      as (_ & typed & -> & Hlen & Hty).
    simpl in *. destruct typed as [|t typed]; [done|].
    apply Forall_cons in Hty as [Ht _].
    split; [by apply (safeTomlSlice_unchanged _ t typed)|].
    split; [done|]. by split.
  - rewrite (safeTomlSlice_unchanged _ _ _ Hr Hmap) in Hout.
    injection Hout as <-.
    split; [by apply (safeTomlSlice_unchanged _ elt r')|].
    split; [by rewrite Hr|]. split; [|done]. intros ->. done.
Qed.

(** ** createConfigMap: the tables of the raw tree *)

Lemma foldM_setRawRule_keys l : ∀ rawRules res,
  foldM setRawRule rawRules l = Ret res →
  ∀ k, is_Some (res !! k)
       ↔ is_Some (rawRules !! k) ∨ ∃ s, s ∈ l ∧ rs_Name s = k.
Proof.
  induction l as [|s l IH]; intros rawRules res Hfold k.
  - injection Hfold as <-. split; [by left|].
    intros [?|(s & Hs & _)]; [done|]. by apply elem_of_nil in Hs.
  - simpl in Hfold.
    destruct (setRawRule rawRules s) as [rawRules1|] eqn:Hset; [|done].
    cbn in Hfold. apply setRawRule_Ret in Hset as (arguments & _ & ->).
    rewrite (IH _ _ Hfold k), lookup_insert_is_Some. split.
    + intros [[<-|[_ ?]]|(s' & Hs' & <-)].
      * right. exists s. split; [left|done].
      * by left.
      * right. exists s'. split; [by right|done].
    + intros [Hk|(s' & [->|Hs']%elem_of_cons & <-)].
      * left. destruct (decide (rs_Name s = k)); [by left|by right].
      * left. by left.
      * right. eauto.
Qed.

Lemma foldM_setRawRule_entry before : ∀ rawRules s after res,
  foldM setRawRule rawRules (before ++ s :: after) = Ret res →
  (∀ s', s' ∈ after → rs_Name s' ≠ rs_Name s) →
  ∃ arguments,
    safeTomlSlice (rs_Arguments s) = Ret arguments
    ∧ res !! rs_Name s = Some (rawRule s arguments).
Proof.
  induction before as [|s0 before IH]; intros rawRules s after res Hfold Hne;
    simpl in Hfold.
  - destruct (setRawRule rawRules s) as [rawRules1|] eqn:Hset; [|done].
    cbn in Hfold. apply setRawRule_Ret in Hset as (arguments & Hargs & ->).
    exists arguments. split; [done|].
    eapply foldM_setRawRule_keep; [exact Hfold|done|].
    apply lookup_insert_eq.
  - destruct (setRawRule rawRules s0) as [rawRules1|] eqn:Hset; [|done].
    cbn in Hfold. by eapply IH.
Qed.

Lemma foldM_setRawRule_Ret_iff l : ∀ rawRules,
  (∃ res, foldM setRawRule rawRules l = Ret res)
  ↔ Forall (λ s, ∃ arguments, safeTomlSlice (rs_Arguments s) = Ret arguments) l.
Proof.
  induction l as [|s l IH]; intros rawRules; simpl.
  - split; [constructor|eauto].
  - split.
    + intros [res Hres].
      destruct (setRawRule rawRules s) as [rawRules1|] eqn:Hset; [|done].
      cbn in Hres. constructor.
      * apply setRawRule_Ret in Hset as (arguments & Hargs & _). eauto.
      * apply (IH rawRules1). eauto.
    + intros [[arguments Hargs] Hall]%Forall_cons.
      assert (∃ rawRules1, setRawRule rawRules s = Ret rawRules1) as [r1 ->].
      { unfold setRawRule. rewrite Hargs. cbn. eauto. }
      cbn. by apply IH.
Qed.

Lemma foldl_setRawDirective_keys l : ∀ acc k,
  is_Some (foldl setRawDirective acc l !! k)
  ↔ is_Some (acc !! k) ∨ ∃ d, d ∈ l ∧ ds_Name d = k.
Proof.
  induction l as [|d l IH]; intros acc k; simpl.
  - split; [by left|]. intros [?|(d & Hd & _)]; [done|].
    by apply elem_of_nil in Hd.
  - rewrite IH. unfold setRawDirective.
    rewrite lookup_insert_is_Some. split.
    + intros [[<-|[_ ?]]|(d' & Hd' & <-)].
      * right. exists d. split; [left|done].
      * by left.
      * right. exists d'. split; [by right|done].
    + intros [Hk|(d' & [->|Hd']%elem_of_cons & <-)].
      * left. destruct (decide (ds_Name d = k)); [by left|by right].
      * left. by left.
      * right. eauto.
Qed.

Lemma foldl_setRawDirective_keep after : ∀ acc name entry,
  (∀ d, d ∈ after → ds_Name d ≠ name) →
  acc !! name = Some entry →
  foldl setRawDirective acc after !! name = Some entry.
Proof.
  induction after as [|d after IH]; intros acc name entry Hne Hl; simpl; [done|].
  apply IH; [intros d' Hd'; apply Hne; by right|].
  unfold setRawDirective. rewrite lookup_insert_ne; [done|]. apply Hne. left.
Qed.

Lemma size_pos_is_Some {V} (m : gmap string V) :
  0 < size m ↔ ∃ k, is_Some (m !! k).
Proof.
  split.
  - intros Hpos. destruct (map_choose m) as (k & v & Hk); [|by eauto].
    intros ->. rewrite map_size_empty in Hpos. lia.
  - intros (k & v & Hk). destruct (decide (size m = 0)) as [He|]; [|lia].
    apply map_size_empty_iff in He. subst m. by rewrite lookup_empty in Hk.
Qed.

Lemma nonempty_elem {A} (l : list A) : l ≠ [] ↔ ∃ x, x ∈ l.
Proof.
  destruct l as [|x l]; split; try done.
  - intros [x Hx]. by apply elem_of_nil in Hx.
  - intros _. exists x. left.
Qed.

(** The raw tree [createConfigMap] returns has the six scalar keys with the
    values of the settings, a "directive" table exactly when the settings
    have a directive, a "rule" table exactly when they have a rule override,
    and no other key. *)
Theorem createConfigMap_root (cfg : ReviveSettings) (rawRoot : gmap string any) :
  createConfigMap cfg = Ret rawRoot →
  rawRoot !! "ignoreGeneratedHeader" = Some (VBool (s_IgnoreGeneratedHeader cfg))
  ∧ rawRoot !! "confidence" = Some (VFloat (s_Confidence cfg))
  ∧ rawRoot !! "severity" = Some (VString (s_Severity cfg))
  ∧ rawRoot !! "errorCode" = Some (VInt (s_ErrorCode cfg))
  ∧ rawRoot !! "warningCode" = Some (VInt (s_WarningCode cfg))
  ∧ rawRoot !! "enableAllRules" = Some (VBool (s_EnableAllRules cfg))
  ∧ (is_Some (rawRoot !! "directive") ↔ elems (s_Directives cfg) ≠ [])
  ∧ (is_Some (rawRoot !! "rule") ↔ elems (s_Rules cfg) ≠ [])
  ∧ (∀ k, is_Some (rawRoot !! k) →
       k ∈ ["ignoreGeneratedHeader"; "confidence"; "severity"; "errorCode";
            "warningCode"; "enableAllRules"; "directive"; "rule"]).
Proof.
  unfold createConfigMap.
  destruct (foldM setRawRule ∅ (elems (s_Rules cfg))) as [rawRules|] eqn:Hfold;
    [|done].
  cbn. intros [= <-].
  change (foldl _ ∅ (elems (s_Directives cfg)))
    with (foldl setRawDirective ∅ (elems (s_Directives cfg))).
  set (rawDirectives := foldl setRawDirective ∅ (elems (s_Directives cfg))).
  assert (0 < size rawDirectives ↔ elems (s_Directives cfg) ≠ []) as Hd.
  { rewrite size_pos_is_Some, nonempty_elem. subst rawDirectives. split.
    - intros [k [Hk|(d & Hd & _)]%foldl_setRawDirective_keys]; [|by eauto].
      rewrite lookup_empty in Hk. by destruct Hk.
    - intros [d Hd]. exists (ds_Name d).
      apply foldl_setRawDirective_keys. right. eauto. }
  assert (0 < size rawRules ↔ elems (s_Rules cfg) ≠ []) as Hr.
  { rewrite size_pos_is_Some, nonempty_elem. split.
    - intros [k Hk]. apply (foldM_setRawRule_keys _ _ _ Hfold) in Hk
        as [Hk|(s & Hs & _)]; [|by eauto].
      rewrite lookup_empty in Hk. by destruct Hk.
    - intros [s Hs]. exists (rs_Name s).
      apply (foldM_setRawRule_keys _ _ _ Hfold). right. eauto. }
  rewrite <- Hd, <- Hr. clear Hd Hr.
  repeat case_decide; repeat split;
    try (rewrite ?lookup_insert_ne by done; apply lookup_insert_eq);
    try (done || (intros [? [=]]));
    try (intros _; rewrite ?lookup_insert_ne by done;
         rewrite lookup_insert_eq; by eauto);
    intros k; rewrite !lookup_insert_is_Some, lookup_empty, !elem_of_cons;
    intros Hk; repeat (destruct Hk as [<-|[_ Hk]]; [tauto|]); by destruct Hk.
Qed.

Lemma createConfigMap_Ret cfg rawRoot :
  createConfigMap cfg = Ret rawRoot →
  ∃ rawRules,
    foldM setRawRule ∅ (elems (s_Rules cfg)) = Ret rawRules
    ∧ (elems (s_Rules cfg) ≠ [] →
       rawRoot !! "rule" = Some (VMapString (VMapString <$> rawRules)))
    ∧ (elems (s_Directives cfg) ≠ [] →
       rawRoot !! "directive"
       = Some (VMapString
                 (VMapString
                    <$> foldl setRawDirective ∅ (elems (s_Directives cfg))))).
Proof.
  unfold createConfigMap.
  destruct (foldM setRawRule ∅ (elems (s_Rules cfg))) as [rawRules|] eqn:Hfold;
    [|done].
  cbn. intros [= <-]. exists rawRules. split; [done|].
  change (foldl _ ∅ (elems (s_Directives cfg)))
    with (foldl setRawDirective ∅ (elems (s_Directives cfg))).
  split.
  - intros [s Hs]%nonempty_elem. rewrite decide_True; [apply lookup_insert_eq|].
    apply size_pos_is_Some. exists (rs_Name s).
    apply (foldM_setRawRule_keys _ _ _ Hfold). right. eauto.
  - intros [d Hd]%nonempty_elem.
    assert (0 < size (foldl setRawDirective ∅ (elems (s_Directives cfg)))).
    { apply size_pos_is_Some. exists (ds_Name d).
      apply foldl_setRawDirective_keys. right. eauto. }
    case_decide; rewrite ?lookup_insert_ne by done;
      rewrite decide_True by done; apply lookup_insert_eq.
Qed.

(** The "rule" table of the raw tree has one entry per name among the rule
    overrides, and the entry of a name is written from the last override of
    that name: its severity, its arguments as [safeTomlSlice] returns them,
    and its disabled flag. *)
Theorem createConfigMap_rule_table
    (cfg : ReviveSettings) (rawRoot : gmap string any) :
  elems (s_Rules cfg) ≠ [] →
  createConfigMap cfg = Ret rawRoot →
  ∃ table : gmap string any,
    rawRoot !! "rule" = Some (VMapString table)
    ∧ (∀ k, is_Some (table !! k)
            ↔ ∃ s, s ∈ elems (s_Rules cfg) ∧ rs_Name s = k)
    ∧ (∀ before s after,
         elems (s_Rules cfg) = before ++ s :: after →
         (∀ s', s' ∈ after → rs_Name s' ≠ rs_Name s) →
         ∃ arguments,
           safeTomlSlice (rs_Arguments s) = Ret arguments
           ∧ table !! rs_Name s
             = Some (VMapString
                       (<["severity" := VString (rs_Severity s)]>
                        (<["arguments" := VSlice arguments]>
                        (<["disabled" := VBool (rs_Disabled s)]> ∅))))).
Proof.
  intros Hne (rawRules & Hfold & Hrule & _)%createConfigMap_Ret.
  eexists. split; [by apply Hrule|]. split.
  - intros k. rewrite lookup_fmap, fmap_is_Some.
    rewrite (foldM_setRawRule_keys _ _ _ Hfold k), lookup_empty.
    split; [intros [[? [=]]|?]; done|by right].
  - intros before s after Hsplit Hlast. rewrite Hsplit in Hfold.
    destruct (foldM_setRawRule_entry _ _ _ _ _ Hfold Hlast)
      as (arguments & Hargs & Hentry).
    exists arguments. split; [done|]. by rewrite lookup_fmap, Hentry.
Qed.

(** The "directive" table of the raw tree has one entry per name among the
    directives, and the entry of a name holds the severity of the last
    directive of that name. *)
Theorem createConfigMap_directive_table
    (cfg : ReviveSettings) (rawRoot : gmap string any) :
  elems (s_Directives cfg) ≠ [] →
  createConfigMap cfg = Ret rawRoot →
  ∃ table : gmap string any,
    rawRoot !! "directive" = Some (VMapString table)
    ∧ (∀ k, is_Some (table !! k)
            ↔ ∃ d, d ∈ elems (s_Directives cfg) ∧ ds_Name d = k)
    ∧ (∀ before d after,
         elems (s_Directives cfg) = before ++ d :: after →
         (∀ d', d' ∈ after → ds_Name d' ≠ ds_Name d) →
         table !! ds_Name d
         = Some (VMapString {[ "severity" := VString (ds_Severity d) ]})).
Proof.
  intros Hne (rawRules & _ & _ & Hdir)%createConfigMap_Ret.
  eexists. split; [by apply Hdir|]. split.
  - intros k. rewrite lookup_fmap, fmap_is_Some.
    rewrite foldl_setRawDirective_keys, lookup_empty.
    split; [intros [[? [=]]|?]; done|by right].
  - intros before d after Hsplit Hlast.
    rewrite lookup_fmap, Hsplit, foldl_app. simpl.
    erewrite foldl_setRawDirective_keep; [done|done|].
    unfold setRawDirective. apply lookup_insert_eq.
Qed.

(** [createConfigMap] panics exactly when [safeTomlSlice] panics on the
    arguments of some rule override. *)
Theorem createConfigMap_panics_iff (cfg : ReviveSettings) :
  (∃ msg, createConfigMap cfg = Panic msg)
  ↔ Exists (λ s, ∃ msg, safeTomlSlice (rs_Arguments s) = Panic msg)
           (elems (s_Rules cfg)).
Proof.
  assert ((∃ msg, createConfigMap cfg = Panic msg)
          ↔ ¬ ∃ res, foldM setRawRule ∅ (elems (s_Rules cfg)) = Ret res) as ->.
  { unfold createConfigMap.
    destruct (foldM setRawRule ∅ (elems (s_Rules cfg))) as [res|msg]; cbn.
    - split; [by intros [? ?]|]. intros []. eauto.
    - split; [by intros _ [? ?]|eauto]. }
  rewrite foldM_setRawRule_Ret_iff. split.
  - intros Hnot. apply not_Forall_Exists in Hnot.
    + eapply Exists_impl; [exact Hnot|]. intros s Hs. simpl in Hs.
      destruct (safeTomlSlice (rs_Arguments s)) as [a|msg]; [|eauto].
      destruct Hs. eauto.
    + intros s.
      destruct (safeTomlSlice (rs_Arguments s)) as [a|msg];
        [left; eauto|right; by intros [? ?]].
  - intros Hex Hall. apply Exists_exists in Hex as (s & Hs & msg & Hp).
    rewrite Forall_forall in Hall. destruct (Hall s Hs) as [a Ha]. congruence.
Qed.

(** ** Argument key coercion *)

(** C6 (as the code has it). When the first element of a rule override's
    argument list is map-like and some entry of the list has a key that is
    not a string, [safeTomlSlice] fails, and [createConfigMap] fails on any
    settings with such an override: by the panic of the type assertion,
    there being no error value. When the first element is not map-like the
    list is returned unchanged, whatever the keys of its later entries. A
    list of map-like entries whose keys are all strings is returned entry by
    entry with the same bindings in string-keyed maps. *)
Theorem safeTomlSlice_string_keys (r : option (list any)) :
  (∀ elt r', elems r = elt :: r' → isMap elt = true →
     Exists (λ x, nonStringKey x = true) (elems r) →
     (∃ msg, safeTomlSlice r = Panic msg)
     ∧ ∀ cfg s, s ∈ elems (s_Rules cfg) → rs_Arguments s = r →
         ∃ msg, createConfigMap cfg = Panic msg)
  ∧ (∀ elt r', elems r = elt :: r' → isMap elt = false →
       safeTomlSlice r = Ret r)
  ∧ (elems r ≠ [] →
     Forall uniqueKeys (elems r) →
     Forall (λ elt, isMap elt = true ∧ nonStringKey elt = false) (elems r) →
     ∃ typed, safeTomlSlice r = Ret (Some typed)
              ∧ Forall2 coerced (elems r) typed).
Proof.
  split; [|split; [apply safeTomlSlice_unchanged|]].
  - intros elt r' Hr Hmap Hex.
    assert (∃ msg, safeTomlSlice r = Panic msg) as [msg Hpanic].
    { rewrite (safeTomlSlice_map _ _ _ Hr Hmap).
      destruct (foldM appendTyped [] (elems r)) as [res|msg] eqn:Hfold;
        [|by eauto].
      apply foldM_appendTyped_coercible in Hfold as [Hall _].
      apply Exists_exists in Hex as (x & Hx & Hbad).
      rewrite Forall_forall in Hall. destruct (Hall x Hx) as [_ Hgood].
      congruence. }
    split; [by eauto|]. intros cfg s Hs Hargs.
    destruct (createConfigMap cfg) as [rawRoot|msg'] eqn:Hcfg; [|by eauto].
    apply createConfigMap_Ret in Hcfg as (rawRules & Hfold & _).
    assert (Forall (λ s, ∃ arguments,
                      safeTomlSlice (rs_Arguments s) = Ret arguments)
                   (elems (s_Rules cfg))) as Hall
      by (apply (foldM_setRawRule_Ret_iff _ ∅); eauto).
    rewrite Forall_forall in Hall. destruct (Hall s Hs) as [arguments Ha].
    congruence.
  - intros Hne Huniq Hall.
    destruct (elems r) as [|elt r'] eqn:Hr; [done|].
    rewrite (safeTomlSlice_map r elt r' Hr)
      by (by apply Forall_cons in Hall as [[? _] _]).
    rewrite Hr.
    destruct (foldM_appendTyped_total (elt :: r') []) as [res Hres].
    { eapply Forall_impl; [exact Hall|]. apply coercible_string_keys. }
    rewrite Hres. cbn.
    apply foldM_appendTyped_Ret in Hres as (typed & -> & Hco); [|done].
    exists typed. done.
Qed.

(** ** The rules of the resolved configuration *)

Section ResolvedRules.

Variable Name : Rule → string.
Variable tomlEncode : gmap string any → error + string.
Variable tomlDecode : string → error + Config.


End ResolvedRules.

(** ** Confidences that are not numbers *)

Lemma SFcompare_refl_None (x : spec_float) :
  SFcompare x x = None → x = S754_nan.
Proof. destruct x as [[]|[]| |[] m e]; done. Qed.

Lemma is_nan_Prim2SF (f : float) :
  PrimFloat.is_nan f = true → Prim2SF f = S754_nan.
Proof.
  unfold PrimFloat.is_nan. rewrite negb_true_iff, FloatAxioms.eqb_spec.
  unfold SFeqb.
  intros Heq. apply SFcompare_refl_None.
  destruct (SFcompare (Prim2SF f) (Prim2SF f)) as [[]|] eqn:Hc; try done.
  - destruct (Prim2SF f) as [[]|[]| |[] m e]; try done; simpl in Hc;
      rewrite Z.compare_refl, Pos.compare_cont_refl in Hc; done.
  - destruct (Prim2SF f) as [[]|[]| |[] m e]; try done; simpl in Hc;
      rewrite Z.compare_refl, Pos.compare_cont_refl in Hc; done.
Qed.

Lemma is_nan_not_ltb (a b : float) :
  PrimFloat.is_nan a = true ∨ PrimFloat.is_nan b = true →
  PrimFloat.ltb a b = false.
Proof.
  rewrite ltb_spec. unfold SFltb.
  intros [->%is_nan_Prim2SF| ->%is_nan_Prim2SF]; [done|].
  by destruct (Prim2SF a) as [[]|[]| |[] m e].
Qed.

(** ** runRevive and the analyzer: the other outcomes *)

Section PipelineMore.

Variable Name : Rule → string.
Variable tomlEncode : gmap string any → error + string.
Variable tomlDecode : string → error + Config.
Variable Pass : Type.
Variable getFileNames : Pass → list string.
Variable Formatter : Type.
Variable GetFormatter : string → error + Formatter.
Variable GetLintingRules : Config → list Rule → error + list Rule.
Variable Lint : Z → list (list string) → list Rule → Config → error + list Failure.
Variable Format : Formatter → list Failure → Config → string * option error.
Variable jsonUnmarshal : string → error + list jsonObject.

Abbreviation getConfig' := (getReviveConfig Name tomlEncode tomlDecode).
Abbreviation run' :=
  (runRevive Name tomlEncode tomlDecode Pass getFileNames Formatter GetFormatter
             GetLintingRules Lint Format jsonUnmarshal).
Abbreviation analyzer :=
  (analyzerRun Name tomlEncode tomlDecode Pass getFileNames Formatter
               GetFormatter GetLintingRules Lint Format jsonUnmarshal).
Abbreviation issuesOf :=
  (issues_of Name tomlEncode tomlDecode Pass getFileNames Formatter
             GetFormatter GetLintingRules Lint Format jsonUnmarshal).
Abbreviation schedule_run :=
  (runSchedule Name tomlEncode tomlDecode Pass getFileNames Formatter
               GetFormatter GetLintingRules Lint Format jsonUnmarshal).

(** A failure whose confidence is not a number is never dropped, and
    nothing is dropped when the configured confidence is not a number. *)
Theorem forwarded_nan (conf : Config) (failures : list Failure) (f : Failure) :
  f ∈ failures →
  PrimFloat.is_nan (f_Confidence f) = true
  ∨ PrimFloat.is_nan (Confidence conf) = true →
  f ∈ forwarded conf failures.
Proof.
  intros Hin Hnan. apply elem_of_forwarded. split; [done|].
  by apply is_nan_not_ltb.
Qed.

(** [runRevive] returns issues without an error exactly when every stage
    succeeds, and the issues are then the decoded results, converted one by
    one in order. *)
Theorem runRevive_success
    (pass : Pass) (settings : ReviveSettings) (issues : list (goIssue Pass)) :
  run' pass settings = Ret (issues, None)
  ↔ ∃ conf formatter lintingRules failures results,
      getConfig' settings = Ret (inr conf)
      ∧ GetFormatter "json" = inr formatter
      ∧ GetLintingRules conf [] = inr lintingRules
      ∧ Lint (s_MaxOpenFiles settings) [getFileNames pass] lintingRules conf
        = inr failures
      ∧ jsonUnmarshal (Format formatter (forwarded conf failures) conf).1
        = inr results
      ∧ issues = reviveToIssue Name pass <$> results.
Proof.
  unfold runRevive. split.
  - destruct (getConfig' settings) as [[e|conf]|msg] eqn:Hc; [done| |done].
    cbn.
    destruct (GetFormatter "json") as [e|formatter] eqn:Hf; [done|].
    destruct (GetLintingRules conf []) as [e|lintingRules] eqn:Hr; [done|].
    destruct (Lint _ _ _ _) as [e|failures] eqn:Hl; [done|].
    destruct (jsonUnmarshal _) as [e|results] eqn:Hu; [done|].
    intros [= <-]. by exists conf, formatter, lintingRules, failures, results.
  - intros (conf & formatter & lintingRules & failures & results
            & Hc & Hf & Hr & Hl & Hu & ->).
    rewrite Hc. cbn. by rewrite Hf, Hr, Hl, Hu.
Qed.

(** [runRevive] panics exactly when the settings are not the zero value and
    [createConfigMap] panics on them. *)
Theorem runRevive_panics_iff
    (pass : Pass) (settings : ReviveSettings) (msg : string) :
  run' pass settings = Panic msg
  ↔ isZeroSettings settings = false ∧ createConfigMap settings = Panic msg.
Proof.
  unfold runRevive, getReviveConfig.
  destruct (isZeroSettings settings); cbn.
  - destruct (GetFormatter "json"); [by split; [|intros [? _]]|].
    destruct (GetLintingRules _ []); [by split; [|intros [? _]]|].
    destruct (Lint _ _ _ _); [by split; [|intros [? _]]|].
    destruct (jsonUnmarshal _); by split; [|intros [? _]].
  - destruct (createConfigMap settings) as [rawRoot|msg']; cbn.
    + destruct (tomlEncode rawRoot) as [e|buf]; cbn;
        [by split; [|intros [_ ?]]|].
      destruct (tomlDecode buf) as [e|conf]; cbn;
        [by split; [|intros [_ ?]]|].
      destruct (GetFormatter "json"); [by split; [|intros [_ ?]]|].
      destruct (GetLintingRules _ []); [by split; [|intros [_ ?]]|].
      destruct (Lint _ _ _ _); [by split; [|intros [_ ?]]|].
      destruct (jsonUnmarshal _); by split; [|intros [_ ?]].
    + split; [by intros [= ->]|by intros [_ [= ->]]].
Qed.

Lemma runRevive_error_nil pass settings issues err :
  run' pass settings = Ret (issues, Some err) → issues = [].
Proof.
  unfold runRevive.
  destruct (getConfig' settings) as [[e|conf]|msg]; [by intros [= <-]| |done].
  cbn.
  destruct (GetFormatter "json"); [by intros [= <-]|].
  destruct (GetLintingRules conf []); [by intros [= <-]|].
  destruct (Lint _ _ _ _); [by intros [= <-]|].
  destruct (jsonUnmarshal _); [by intros [= <-]|done].
Qed.

Lemma runRevive_issues pass settings issues err :
  run' pass settings = Ret (issues, err) →
  ∃ results, issues = reviveToIssue Name pass <$> results.
Proof.
  unfold runRevive.
  destruct (getConfig' settings) as [[e|conf]|msg];
    [intros [= <- _]; by exists []| |done].
  cbn.
  destruct (GetFormatter "json"); [intros [= <- _]; by exists []|].
  destruct (GetLintingRules conf []); [intros [= <- _]; by exists []|].
  destruct (Lint _ _ _ _); [intros [= <- _]; by exists []|].
  destruct (jsonUnmarshal _) as [e|results]; [intros [= <- _]; by exists []|].
  intros [= <- _]. eauto.
Qed.

(** Every issue [runRevive] returns carries the pass it was run on and the
    linter name "revive", and its line range starts at the line of its
    position. *)
Theorem runRevive_issues_attributed
    (pass : Pass) (settings : ReviveSettings)
    (issues : list (goIssue Pass)) (err : option error) :
  run' pass settings = Ret (issues, err) →
  Forall (λ issue, gi_Pass issue = pass
                   ∧ i_FromLinter (gi_Issue issue) = "revive"
                   ∧ From_ (i_LineRange (gi_Issue issue))
                     = Line (i_Pos (gi_Issue issue)))
         issues.
Proof.
  intros [results ->]%runRevive_issues.
  apply Forall_fmap, Forall_true. done.
Qed.

(** One call of the analyzer's [Run] appends to [resIssues] exactly the
    issues [runRevive] returns for the pass, behind what was there, and
    returns [runRevive]'s error; when there is an error, [resIssues] is left
    as it was. *)
Theorem analyzerRun_appends
    (settings : ReviveSettings) (resIssues resIssues' : list (goIssue Pass))
    (pass : Pass) (err : option error) :
  analyzer settings resIssues pass = Ret (resIssues', err) →
  ∃ issues,
    run' pass settings = Ret (issues, err)
    ∧ resIssues' = resIssues ++ issues
    ∧ (err ≠ None → resIssues' = resIssues).
Proof.
  unfold analyzerRun.
  destruct (run' pass settings) as [[issues [e|]]|msg] eqn:Hrun; [| |done]; cbn.
  - intros [= <- <-]. exists issues. split; [done|].
    apply runRevive_error_nil in Hrun as ->. by rewrite app_nil_r.
  - case_decide as Hlen; intros [= <- <-]; exists issues.
    + apply nil_length_inv in Hlen as ->. by rewrite app_nil_r.
    + done.
Qed.

Lemma analyzerRun_issuesOf settings resIssues pass :
  analyzer settings resIssues pass ≫= (λ r, Ret r.1)
  = match run' pass settings with
    | Ret _ => Ret (resIssues ++ issuesOf settings pass)
    | Panic msg => Panic msg
    end.
Proof.
  unfold analyzerRun, issues_of.
  destruct (run' pass settings) as [[issues [e|]]|msg] eqn:Hrun; [| |done]; cbn.
  - apply runRevive_error_nil in Hrun as ->. by rewrite app_nil_r.
  - case_decide as Hlen; cbn; [|done].
    apply nil_length_inv in Hlen as ->. by rewrite app_nil_r.
Qed.

Lemma runSchedule_Ret_iff settings schedule : ∀ resIssues out,
  schedule_run settings resIssues schedule = Ret out
  ↔ Forall (λ pass, ∃ r, run' pass settings = Ret r) schedule
    ∧ out = resIssues ++ (schedule ≫= issuesOf settings).
Proof.
  unfold runSchedule.
  induction schedule as [|pass schedule IH]; intros resIssues out; simpl.
  - rewrite app_nil_r. split; [by intros [= <-]|by intros [_ ->]].
  - rewrite analyzerRun_issuesOf.
    destruct (run' pass settings) as [r|msg] eqn:Hrun; cbn.
    + change (foldM _ ?a schedule) with (schedule_run settings a schedule).
      unfold runSchedule. rewrite IH, Forall_cons, <- app_assoc.
      split; [|by intros [[_ ?] ->]].
      intros [? ->]. split; [split; [by exists r|done]|done].
    + split; [done|]. intros [[[r Hr] _]%Forall_cons _]. congruence.
Qed.

(** Run over a schedule of passes, none of which panics, the analyzer
    leaves in [resIssues] what was there followed by the issues of each
    pass, in schedule order: no issue is lost and none is added. *)
Theorem runSchedule_collects
    (settings : ReviveSettings) (resIssues out : list (goIssue Pass))
    (schedule : list Pass) :
  schedule_run settings resIssues schedule = Ret out →
  ∃ perPass : list (list (goIssue Pass)),
    Forall2 (λ pass issues, ∃ err, run' pass settings = Ret (issues, err))
            schedule perPass
    ∧ out = resIssues ++ concat perPass
    ∧ length out = length resIssues + sum_list (length <$> perPass).
Proof.
  intros [Hall ->]%runSchedule_Ret_iff.
  exists (issuesOf settings <$> schedule). split; [|split].
  - apply Forall2_fmap_r, Forall_Forall2_diag.
    eapply Forall_impl; [exact Hall|]. intros pass [[issues err] Hrun].
    exists err. unfold issues_of. by rewrite Hrun.
  - f_equal. clear Hall.
    induction schedule as [|pass schedule IH]; [done|].
    cbn. f_equal. exact IH.
  - rewrite length_app. f_equal. clear Hall.
    induction schedule as [|pass schedule IH]; [done|].
    cbn. rewrite length_app. f_equal. exact IH.
Qed.

(** The order in which the passes take the lock changes the order of the
    reported issues and nothing else: two schedules of the same passes give
    the same issues up to a permutation. *)
Theorem runSchedule_permutation
    (settings : ReviveSettings) (resIssues out : list (goIssue Pass))
    (schedule schedule' : list Pass) :
  schedule ≡ₚ schedule' →
  schedule_run settings resIssues schedule = Ret out →
  ∃ out', schedule_run settings resIssues schedule' = Ret out'
          ∧ out ≡ₚ out' ∧ length out = length out'.
Proof.
  intros Hperm [Hall ->]%runSchedule_Ret_iff.
  exists (resIssues ++ (schedule' ≫= issuesOf settings)).
  assert (resIssues ++ (schedule ≫= issuesOf settings)
          ≡ₚ resIssues ++ (schedule' ≫= issuesOf settings)) as Hout
    by by rewrite Hperm.
  split; [|split; [done|by rewrite Hout]].
  apply runSchedule_Ret_iff. split; [|done]. by rewrite <- Hperm.
Qed.

End PipelineMore.

(** * Concrete runs, continued *)

Lemma normalizeConfig_keeps_entries_witness :
  ∃ (rules : gmap string RuleConfig) (v' : RuleConfig),
    Rules (normalizeConfig ruleName exEnableAll) = Some rules
    ∧ rules !! "exported" = Some v'
    ∧ rc_Severity v' = "error".
Proof.
  destruct (normalizeConfig_keeps_entries ruleName exEnableAll
              {[ "exported" :=
                   {| rc_Arguments := None; rc_Severity := "error";
                      rc_Disabled := false |} ]}
              "exported"
              {| rc_Arguments := None; rc_Severity := "error";
                 rc_Disabled := false |} eq_refl eq_refl)
    as (rules & v' & Hrules & Hk & _ & _ & Hsame & _).
  exists rules, v'. repeat split; [done..|].
  by rewrite Hsame.
Defined.

Lemma getReviveConfig_normalized_witness :
  let conf := normalizeConfig ruleName (defaultConfig ruleName) in
  normalizeConfig ruleName conf = conf
  ∧ PrimFloat.eqb (Confidence conf) 0 = false.
Proof.
  intros conf.
  destruct (getReviveConfig_normalized ruleName stubEncode stubDecode
              zeroSettings conf eq_refl) as (Hfix & Hconf & _).
  by split.
Defined.

Lemma getReviveConfig_error_wrapped_witness :
  getReviveConfig ruleName failEncode stubDecode (exSettings exStringKeys)
  = Ret (inl "failed to encode configuration: toml: cannot encode").
Proof.
  apply (getReviveConfig_error_wrapped ruleName failEncode stubDecode
           (exSettings exStringKeys)).
  split; [reflexivity|]. eexists. split; [reflexivity|].
  left. exists "toml: cannot encode". split; reflexivity.
Defined.

Lemma safeTomlSlice_stable_witness :
  ∃ out, safeTomlSlice (Some exStringKeys) = Ret out
         ∧ safeTomlSlice out = Ret out
         ∧ length (elems out) = 1.
Proof.
  eexists. split; [reflexivity|].
  edestruct (safeTomlSlice_stable (Some exStringKeys)) as (H1 & H2 & _);
    [reflexivity|].
  split; [exact H1|exact H2].
Defined.

Lemma createConfigMap_root_witness :
  ∃ rawRoot, createConfigMap (exSettings exStringKeys) = Ret rawRoot
             ∧ rawRoot !! "enableAllRules" = Some (VBool false)
             ∧ is_Some (rawRoot !! "rule")
             ∧ ¬ is_Some (rawRoot !! "directive").
Proof.
  eexists. split; [reflexivity|].
  edestruct (createConfigMap_root (exSettings exStringKeys))
    as (_ & _ & _ & _ & _ & H6 & H7 & H8 & _); [reflexivity|].
  split; [exact H6|]. split.
  - apply H8. discriminate.
  - intros H. apply H7 in H. apply H. reflexivity.
Defined.

Lemma createConfigMap_rule_table_witness :
  ∃ rawRoot table,
    createConfigMap (exSettings exIntKeySecond) = Ret rawRoot
    ∧ rawRoot !! "rule" = Some (VMapString table)
    ∧ (∀ k, is_Some (table !! k)
            ↔ ∃ s, s ∈ [exRule exIntKeySecond] ∧ rs_Name s = k).
Proof.
  eexists. 
  edestruct (createConfigMap_rule_table (exSettings exIntKeySecond))
    as (table & H1 & H2 & _); [discriminate|reflexivity|].
  exists table. split; [reflexivity|]. split; [exact H1|exact H2].
Defined.

Lemma createConfigMap_directive_table_witness :
  ∃ rawRoot table,
    createConfigMap exDirectives = Ret rawRoot
    ∧ rawRoot !! "directive" = Some (VMapString table)
    ∧ table !! "specify-disable-reason"
      = Some (VMapString {[ "severity" := VString "error" ]}).
Proof.
  eexists.
  edestruct (createConfigMap_directive_table exDirectives)
    as (table & H1 & _ & H3); [discriminate|reflexivity|].
  exists table. split; [reflexivity|]. split; [exact H1|].
  apply (H3 [ {| ds_Name := "specify-disable-reason";
                 ds_Severity := "warning" |} ]
            {| ds_Name := "specify-disable-reason"; ds_Severity := "error" |}
            []); [reflexivity|].
  intros d' Hd'. apply elem_of_nil in Hd'. destruct Hd'.
Defined.

Lemma forwarded_nan_witness :
  exNaN ∈ forwarded (normalizeConfig ruleName (defaultConfig ruleName))
                    [exLow; exNaN].
Proof.
  apply forwarded_nan; [right; left|left; reflexivity].
Defined.

Lemma runRevive_issues_attributed_witness :
  ∃ issues,
    runRevive ruleName stubEncode stubDecode nat (λ _, ["a.go"]) unit
              exGetFormatter exGetLintingRules exLint exFormat exUnmarshal
              7%nat zeroSettings = Ret (issues, None)
    ∧ length issues = 1%nat
    ∧ Forall (λ issue, gi_Pass issue = 7%nat
                       ∧ i_FromLinter (gi_Issue issue) = "revive"
                       ∧ From_ (i_LineRange (gi_Issue issue))
                         = Line (i_Pos (gi_Issue issue)))
             issues.
Proof.
  eexists. split; [reflexivity|]. split; [reflexivity|].
  apply (runRevive_issues_attributed ruleName stubEncode stubDecode nat
           (λ _, ["a.go"]) unit exGetFormatter exGetLintingRules exLint
           exFormat exUnmarshal 7%nat zeroSettings) with (err := None).
  reflexivity.
Defined.

Lemma analyzerRun_appends_witness :
  ∃ resIssues' issues,
    analyzerRun ruleName stubEncode stubDecode nat (λ _, ["a.go"]) unit
                exGetFormatter exGetLintingRules exLint exFormat exUnmarshal
                zeroSettings [] 7%nat = Ret (resIssues', None)
    ∧ runRevive ruleName stubEncode stubDecode nat (λ _, ["a.go"]) unit
                exGetFormatter exGetLintingRules exLint exFormat exUnmarshal
                7%nat zeroSettings = Ret (issues, None)
    ∧ resIssues' = [] ++ issues.
Proof.
  eexists.
  edestruct (analyzerRun_appends ruleName stubEncode stubDecode nat
               (λ _, ["a.go"]) unit exGetFormatter exGetLintingRules exLint
               exFormat exUnmarshal zeroSettings [])
    with (pass := 7%nat) (err := @None error)
    as (issues & H1 & H2 & _); [reflexivity|].
  exists issues. split; [reflexivity|]. split; [exact H1|exact H2].
Defined.

Lemma runSchedule_collects_witness :
  ∃ out,
    runSchedule ruleName stubEncode stubDecode nat (λ _, ["a.go"]) unit
                exGetFormatter exGetLintingRules exLint exFormat exUnmarshal
                zeroSettings [] [1%nat; 2%nat] = Ret out
    ∧ length out = 2%nat.
Proof.
  eexists. split; [reflexivity|].
  edestruct (runSchedule_collects ruleName stubEncode stubDecode nat
               (λ _, ["a.go"]) unit exGetFormatter exGetLintingRules exLint
               exFormat exUnmarshal zeroSettings [])
    with (schedule := [1%nat; 2%nat])
    as (perPass & _ & _ & _); [reflexivity|].
  reflexivity.
Defined.

Lemma runSchedule_permutation_witness :
  ∃ out out',
    runSchedule ruleName stubEncode stubDecode nat (λ _, ["a.go"]) unit
                exGetFormatter exGetLintingRules exLint exFormat exUnmarshal
                zeroSettings [] [1%nat; 2%nat] = Ret out
    ∧ runSchedule ruleName stubEncode stubDecode nat (λ _, ["a.go"]) unit
                  exGetFormatter exGetLintingRules exLint exFormat exUnmarshal
                  zeroSettings [] [2%nat; 1%nat] = Ret out'
    ∧ out ≡ₚ out'.
Proof.
  eexists.
  edestruct (runSchedule_permutation ruleName stubEncode stubDecode nat
               (λ _, ["a.go"]) unit exGetFormatter exGetLintingRules exLint
               exFormat exUnmarshal zeroSettings [])
    with (schedule := [1%nat; 2%nat]) (schedule' := [2%nat; 1%nat])
    as (out' & H1 & H2 & _); [apply Permutation_swap|reflexivity|].
  exists out'. split; [reflexivity|]. split; [exact H1|exact H2].
Defined.

